(** * iCalObsidianSync: the sentence-to-event extraction engine

    A shallow embedding of [src/controllers/nlpController.ts] (class
    [NlpController], the variant with two taggers) and the properties of
    its extraction pipeline.

    Conventions of the embedding.
    - JavaScript numbers that hold offsets are [Z]; [-1] is the "not found"
      sentinel of [indexOf], exactly as in the source.
    - JavaScript strings are [string]s of 8-bit characters; [toLowerCase]
      and [toUpperCase] act on the ASCII letters.
    - [x[i]] on an array or a string is a partial lookup ([None] stands for
      [undefined]); reading [.length] of [undefined] raises, which is kept
      as an explicit [Throw].
    - The tagger (wink-nlp), the date parser (smartDateParser), the
      identity collaborator (eventController) and [Misc] are external: they
      are interfaces (type classes) here, and every theorem holds for all
      their implementations. *)

From Stdlib Require Import ZArith List String Ascii Bool Lia.
Import ListNotations.

Local Open Scope string_scope.
Local Open Scope list_scope.
Local Open Scope Z_scope.

(** String concatenation ([+] on strings, and template literals). *)
Infix "+++" := String.append (right associativity, at level 60).

Set Implicit Arguments.

(* ================================================================== *)
(** * JavaScript primitives used by the controller *)
(* ================================================================== *)

Module JS.

(** [s.length] *)
Definition strlen (s : string) : Z := Z.of_nat (String.length s).

(** [text.indexOf(pat)]: offset of the first occurrence, [-1] if none. *)
Definition indexOf (text pat : string) : Z :=
  match String.index 0 pat text with
  | Some n => Z.of_nat n
  | None => -1
  end.

(** [arr[i]] for a JavaScript number [i]; [None] is [undefined]. *)
Definition nthZ {A : Type} (l : list A) (i : Z) : option A :=
  if i <? 0 then None else nth_error l (Z.to_nat i).

(** [text[i]] *)
Definition charAt (text : string) (i : Z) : option ascii :=
  if i <? 0 then None else String.get (Z.to_nat i) text.

(** [arr.indexOf(x)] on an array of strings. *)
Fixpoint arrayIndexOfFrom (l : list string) (x : string) (i : Z) : Z :=
  match l with
  | [] => -1
  | y :: l' => if String.eqb y x then i else arrayIndexOfFrom l' x (i + 1)
  end.

Definition arrayIndexOf (l : list string) (x : string) : Z :=
  arrayIndexOfFrom l x 0.

Definition isUpperAscii (c : ascii) : bool :=
  let n := nat_of_ascii c in (Nat.leb 65 n && Nat.leb n 90)%bool.

Definition isLowerAscii (c : ascii) : bool :=
  let n := nat_of_ascii c in (Nat.leb 97 n && Nat.leb n 122)%bool.

Definition lowerChar (c : ascii) : ascii :=
  if isUpperAscii c then ascii_of_nat (nat_of_ascii c + 32) else c.

Definition upperChar (c : ascii) : ascii :=
  if isLowerAscii c then ascii_of_nat (nat_of_ascii c - 32) else c.

(** [s.toLowerCase()] *)
Fixpoint toLowerCase (s : string) : string :=
  match s with
  | EmptyString => EmptyString
  | String c s' => String (lowerChar c) (toLowerCase s')
  end.

(** [s.charAt(0).toUpperCase() + s.slice(1)] *)
Definition capitalize (s : string) : string :=
  match s with
  | EmptyString => EmptyString
  | String c s' => String (upperChar c) s'
  end.

(** [s.split(" ")]: never empty; ["".split(" ")] is [[""]]. *)
Fixpoint split (s : string) : list string :=
  match s with
  | EmptyString => [EmptyString]
  | String c s' =>
      if Ascii.eqb c " " then EmptyString :: split s'
      else match split s' with
           | w :: ws => String c w :: ws
           | [] => [String c EmptyString]
           end
  end.

(** [arr.last()] (Obsidian's extension of [Array.prototype]). *)
Definition last {A : Type} (l : list A) : option A := List.last (map Some l) None.

(** A value inside a template literal: [undefined] prints as such. *)
Definition show (v : option string) : string :=
  match v with Some s => s | None => "undefined" end.

(** [arr.toString()]: the elements joined by commas. *)
Fixpoint arrayToString (l : list string) : string :=
  match l with
  | [] => EmptyString
  | [x] => x
  | x :: l' => x +++ "," +++ arrayToString l'
  end.

(** [s.replaceAll(",", " ")] *)
Fixpoint replaceCommas (s : string) : string :=
  match s with
  | EmptyString => EmptyString
  | String c s' => String (if Ascii.eqb c "," then " "%char else c) (replaceCommas s')
  end.

(** The result of a call that may raise. *)
Inductive Exn (A : Type) : Type :=
| Ok (a : A)
| Throw (msg : string).
Arguments Ok {A} a.
Arguments Throw {A} msg.

End JS.

Import JS.

(* ================================================================== *)
(** * Data model *)
(* ================================================================== *)

(** What [customEntities.out(its.detail)] yields for one tagged span. *)
Module Detail.
Record t : Type := mk { value : string; type : string }.
End Detail.

(** [{value, index, type}]: a selected span. *)
Module Span.
Record t : Type := mk { value : string; index : Z; type : string }.
End Span.

(** [{value, index, type, parsedValue}]: the resolved person. *)
Module ProperName.
Record t : Type :=
  mk { value : string; index : Z; type : string; parsedValue : string }.
(** The person as an element of the selection array, whose declared
    element type is [{value, index, type}]. *)
Definition toSpan (p : t) : Span.t := Span.mk (value p) (index p) (type p).
End ProperName.

(** [{value, index, type, noun}]: the selected intentional verb. *)
Module IntentionalVerb.
Record t : Type :=
  mk { value : string; index : Z; type : string; noun : string }.
End IntentionalVerb.

(** One token of a wink document: [tokens.out()] lists the values,
    [tokens.out(its.pos)] the part-of-speech tags. *)
Module Token.
Record t : Type := mk { value : string; pos : string }.
End Token.

Module Tokens.
Definition t : Type := list Token.t.
Definition out (ts : t) : list string := map Token.value ts.
Definition out_pos (ts : t) : list string := map Token.pos ts.
End Tokens.

(** A wink document, as far as the controller reads it. *)
Record Doc : Type := mkDoc {
  customEntities : list Detail.t;   (* [doc.customEntities().out(its.detail)] *)
  tokens : Tokens.t                 (* [doc.tokens()] *)
}.

(** [{name, patterns}]: one custom entity of the grammar. *)
Record CustomPattern : Type := mkPattern {
  name : string;
  patterns : list string
}.

Record DateRange : Type := mkDateRange { start : Z; end_ : Z }.

(** Modelled from the spec: the class [Event] ([../model/event]) is not
    part of the sources; the spec gives it a [processed] boolean that the
    engine reads and never sets. [eventId] tells events apart. *)
Record Event : Type := mkEvent { eventId : nat; processed : bool }.

(** Modelled from the spec: the class [Sentence] ([../model/sentence]) is
    not part of the sources; the spec gives it the raw text [value] and
    the lazily injected semantic fields (start date, end date, event-noun
    text). *)
Record Sentence : Type := mkSentence {
  value : string;
  startDate : option Z;
  endDate : option Z;
  eventNoun : option string
}.

(** Modelled from the spec: [sentence.injectSemanticFields(start, end,
    eventNoun)] stores the three semantic fields. *)
Definition injectSemanticFields (s : Sentence) (st en : Z) (noun : string) : Sentence :=
  mkSentence (value s) (Some st) (Some en) (Some noun).

(** [sentence.eventNoun = eventTitle] *)
Definition set_eventNoun (s : Sentence) (title : string) : Sentence :=
  mkSentence (value s) (startDate s) (endDate s) (Some title).

(* ================================================================== *)
(** * External collaborators *)
(* ================================================================== *)

(** wink-nlp: a tagger that has learned a list of custom entities reads a
    text into a document. *)
Class Tagger : Type := {
  readDoc : list CustomPattern -> string -> Doc
}.

(** smartDateParser: [parse] and [getDates] ([None] is [undefined]). *)
Class SmartDateParser : Type := {
  ParsedResult : Type;
  parse : string -> list ParsedResult;
  getDates : list ParsedResult -> option DateRange
}.

(** eventController: the identity collaborator, over its own store. *)
Class EventController : Type := {
  World : Type;
  syntacticCheck : Sentence -> World -> option Event * World;
  semanticCheck : Sentence -> World -> option Event * World;
  createNewEvent : Sentence -> World -> Event * World
}.

(** [Misc.isLowerCase], applied to [text[i]]. *)
Class MiscLib : Type := {
  isLowerCase : option ascii -> bool
}.

(** [JSON.parse(readFileSync(path).toString())]; [None] when the file is
    missing or malformed (the call raises). *)
Class PatternFiles : Type := {
  readPatternFile : string -> option (list string)
}.

(** [arr.forEach(body)] over a state that the callback updates. *)
Definition forEach {A S : Type} (l : list A) (body : S -> A -> S) (init : S) : S :=
  fold_left body l init.

(** [forEach] whose callback may raise. *)
Fixpoint forEachExn {A S : Type} (l : list A) (body : S -> A -> Exn S) (init : S) : Exn S :=
  match l with
  | [] => Ok init
  | x :: l' =>
      match body init x with
      | Ok s => forEachExn l' body s
      | Throw m => Throw m
      end
  end.

(* ================================================================== *)
(** * The private methods of [NlpController] *)
(* ================================================================== *)

Definition typeIs (ty : string) (d : Detail.t) : bool := String.eqb (Detail.type d) ty.

(** [filterDates] *)
Definition filterDates (customEntities : list Detail.t) : list Detail.t :=
  filter (fun p =>
            typeIs "date" p || typeIs "ordinalDate" p ||
            typeIs "ordinalDateReverse" p || typeIs "timeRange" p ||
            typeIs "exactTime" p || typeIs "duration" p)
         customEntities.

(** [filterProperNames] *)
Definition filterProperNames (customEntities : list Detail.t) : list Detail.t :=
  filter (typeIs "properName") customEntities.

(** [filterEventNoun] *)
Definition filterEventNoun (customEntities : list Detail.t) : list Detail.t :=
  filter (typeIs "eventNoun") customEntities.

(** [filterPurposes] *)
Definition filterPurposes (customEntities : list Detail.t) : list Detail.t :=
  filter (typeIs "purpose") customEntities.

(** [findEventNoun(text, eventNouns, selectedVerbIndex)]: the callback of
    the [forEach] updates [selectedEventNoun] and [nounDistance]. *)
Definition findEventNoun_body (text : string) (selectedVerbIndex : Z)
    (st : Span.t * Z) (n : Detail.t) : Span.t * Z :=
  let '(selectedEventNoun, nounDistance) := st in
  let nIndex := indexOf text (Detail.value n) in
  let distanceFromVerb := Z.abs (nIndex - selectedVerbIndex) in
  if distanceFromVerb <? nounDistance
  then (Span.mk (Detail.value n) nIndex (Detail.type n), distanceFromVerb)
  else (selectedEventNoun, nounDistance).

Definition findEventNoun (text : string) (eventNouns : list Detail.t)
    (selectedVerbIndex : Z) : Span.t :=
  let selectedEventNoun := Span.mk "" (-1) "" in
  let nounDistance := 1000 in
  fst (forEach eventNouns (findEventNoun_body text selectedVerbIndex)
               (selectedEventNoun, nounDistance)).

(** [findIntentionalVerb(customEntities, tokens, text, selectedDateIndex)] *)
Definition findIntentionalVerb_body (text : string) (selectedDateIndex : Z)
    (st : IntentionalVerb.t * Z) (intentionalVerb : Detail.t) : IntentionalVerb.t * Z :=
  let '(selectedIntentionalVerb, verbDistance) := st in
  let vIndex := indexOf text (Detail.value intentionalVerb) in
  let distanceFromDate := Z.abs (vIndex - selectedDateIndex) in
  if distanceFromDate <? verbDistance
  then (IntentionalVerb.mk (Detail.value intentionalVerb) vIndex
                           (Detail.type intentionalVerb)
                           (IntentionalVerb.noun selectedIntentionalVerb),
        distanceFromDate)
  else (selectedIntentionalVerb, verbDistance).

Definition findIntentionalVerb (customEntities : list Detail.t) (tokens : Tokens.t)
    (text : string) (selectedDateIndex : Z) : IntentionalVerb.t :=
  let selectedIntentionalVerb := IntentionalVerb.mk "" (-1) "" "" in
  let intentionalVerbs := filter (typeIs "intentionalVerb") customEntities in
  let pos := Tokens.out_pos tokens in
  let tokenValue := Tokens.out tokens in
  if (List.length intentionalVerbs =? 0)%nat then selectedIntentionalVerb else
  let verbDistance := 1000 in
  let selectedIntentionalVerb :=
    fst (forEach intentionalVerbs (findIntentionalVerb_body text selectedDateIndex)
                 (selectedIntentionalVerb, verbDistance)) in
  let verbIndex := arrayIndexOf pos "VERB" in
  let verb := nthZ tokenValue verbIndex in
  IntentionalVerb.mk
    (IntentionalVerb.value selectedIntentionalVerb)
    (IntentionalVerb.index selectedIntentionalVerb)
    (IntentionalVerb.type selectedIntentionalVerb)
    (show verb +++ " " +++
     show (JS.last (split (IntentionalVerb.value selectedIntentionalVerb)))).

(** The condition of the adjacency loop on [pos[eventNounTokenIndex + adjOffset]]. *)
Definition isWalkTag (p : option string) : bool :=
  match p with
  | Some t => String.eqb t "NOUN" || String.eqb t "ADJ" ||
              String.eqb t "ADP" || String.eqb t "PRON"
  | None => false
  end.

(** [selectedProperName != null && adjWord == selectedProperName.value] *)
Definition isNameWord (selectedProperName : option ProperName.t) (adjWord : string) : bool :=
  match selectedProperName with
  | Some p => String.eqb adjWord (ProperName.value p)
  | None => false
  end.

(** How the first [while] of [findAdjAttributes] ends. *)
Inductive Walk : Type :=
| WalkReturnNull                                      (* [return null] inside the loop *)
| WalkThrow (msg : string)                            (* [adjWord.length] of [undefined] *)
| WalkEnd (selectedAdjAttributes : list Span.t).      (* the condition became false *)

(** The first [while] of [findAdjAttributes]; one unit of [fuel] per
    iteration ([adjWalk_fuel] below: the length of [pos] is enough). *)
Fixpoint adjWalk (fuel : nat) (stringTokens pos : list string)
    (selectedProperName : option ProperName.t)
    (eventNounTokenIndex eventNounIndex selectedDateIndex : Z) (backward : bool)
    (adjOffset cumulativeIndex : Z) (selectedAdjAttributes : list Span.t) : Walk :=
  match fuel with
  | O => WalkEnd selectedAdjAttributes
  | S fuel' =>
      let tag := nthZ pos (eventNounTokenIndex + adjOffset) in
      if isWalkTag tag then
        match nthZ stringTokens (eventNounTokenIndex + adjOffset) with
        | None => WalkThrow "TypeError: adjWord is undefined"
        | Some adjWord =>
            if isNameWord selectedProperName adjWord then WalkReturnNull else
            let selectedAdjAttributedIndex :=
              cumulativeIndex +
              (if backward then eventNounIndex - (strlen adjWord + 1)
               else eventNounIndex + (strlen adjWord + 1)) in
            if selectedAdjAttributedIndex =? selectedDateIndex then WalkReturnNull else
            adjWalk fuel' stringTokens pos selectedProperName
                    eventNounTokenIndex eventNounIndex selectedDateIndex backward
                    (if backward then adjOffset - 1 else adjOffset + 1)
                    selectedAdjAttributedIndex
                    (selectedAdjAttributes ++
                     [Span.mk adjWord selectedAdjAttributedIndex (show tag)])
        end
      else WalkEnd selectedAdjAttributes
  end.

Definition isAdpOrPron (ty : string) : bool :=
  String.eqb ty "ADP" || String.eqb ty "PRON".

(** The second [while] of [findAdjAttributes], on the array read from its
    end: [pop] while the last element is an ADP or a PRON. *)
Fixpoint popTrailing (reversed : list Span.t) : list Span.t :=
  match reversed with
  | a :: r => if isAdpOrPron (Span.type a) then popTrailing r else reversed
  | [] => []
  end.

Definition stripTrailing (selectedAdjAttributes : list Span.t) : list Span.t :=
  rev (popTrailing (rev selectedAdjAttributes)).

(** [findAdjAttributes(tokens, pos, selectedEventNoun, selectedProperName,
    eventNounIndex, selectedDateIndex, backward = false)] *)
Definition findAdjAttributes (tokens : Tokens.t) (pos : list string)
    (selectedEventNoun : Span.t) (selectedProperName : option ProperName.t)
    (eventNounIndex selectedDateIndex : Z) (backward : bool)
  : Exn (option (list Span.t)) :=
  let adjOffset := if backward then -1 else 1 in
  let stringTokens := Tokens.out tokens in
  let eventNounTokenIndex := arrayIndexOf stringTokens (Span.value selectedEventNoun) in
  if eventNounTokenIndex <=? 0 then Ok None else
  let cumulativeIndex := 0 in
  match adjWalk (List.length pos) stringTokens pos selectedProperName
                eventNounTokenIndex eventNounIndex selectedDateIndex backward
                adjOffset cumulativeIndex [] with
  | WalkReturnNull => Ok None
  | WalkThrow m => Throw m
  | WalkEnd selectedAdjAttributes =>
      let selectedAdjAttributes := stripTrailing selectedAdjAttributes in
      if (List.length selectedAdjAttributes =? 0)%nat then Ok None
      else Ok (Some selectedAdjAttributes)
  end.

(** The variables that the callback of [findProperName] updates; [hasAdp]
    and [adp] are declared outside the [forEach], next to the selection. *)
Record NameScan : Type := mkNameScan {
  selectedProperName : ProperName.t;
  properNameDistance : Z;
  hasAdp : bool;
  adp : option string
}.

Section ProperNames.
Context {misc : MiscLib}.

(** The callback of the [forEach] of [findProperName]. *)
Definition findProperName_body (text : string) (selectedEventNoun : Span.t)
    (st : NameScan) (properName : Detail.t) : Exn NameScan :=
  let pIndex := indexOf (toLowerCase text) (Detail.value properName) in
  let caseSensitiveFirstChar := charAt text pIndex in
  (* Checking ad-positions *)
  let splitValue := split (Detail.value properName) in
  let adp := if (List.length splitValue =? 1)%nat then None else nthZ splitValue 0 in
  let hasAdp := match adp with Some _ => true | None => hasAdp st end in
  let firstChar :=
    if hasAdp then
      match adp with
      | Some a => Ok (charAt text (pIndex + strlen a + 1))
      | None => Throw "TypeError: adp is undefined"
      end
    else Ok caseSensitiveFirstChar in
  match firstChar with
  | Throw m => Throw m
  | Ok caseSensitiveFirstChar =>
      if isLowerCase caseSensitiveFirstChar
      then Ok (mkNameScan (selectedProperName st) (properNameDistance st) hasAdp adp)
      else
        let distanceFromEventNoun := Z.abs (pIndex - Span.index selectedEventNoun) in
        if distanceFromEventNoun <? properNameDistance st
        then Ok (mkNameScan
                   (ProperName.mk
                      (show (if hasAdp then nthZ splitValue 1 else nthZ splitValue 0))
                      pIndex (Detail.type properName)
                      (ProperName.parsedValue (selectedProperName st)))
                   distanceFromEventNoun hasAdp adp)
        else Ok (mkNameScan (selectedProperName st) (properNameDistance st) hasAdp adp)
  end.

(** [findProperName(text, properNames, selectedEventNoun)] *)
Definition findProperName (text : string) (properNames : list Detail.t)
    (selectedEventNoun : Span.t) : Exn (option ProperName.t) :=
  let init := mkNameScan (ProperName.mk "" (-1) "" "") 1000 false None in
  match forEachExn properNames (findProperName_body text selectedEventNoun) init with
  | Throw m => Throw m
  | Ok st =>
      let sel := selectedProperName st in
      if ProperName.index sel =? -1 then Ok None else
      let parsedValue := capitalize (ProperName.value sel) in
      let parsedValue :=
        if negb (hasAdp st) then "with " +++ parsedValue
        else show (adp st) +++ " " +++ parsedValue in
      Ok (Some (ProperName.mk (ProperName.value sel) (ProperName.index sel)
                              (ProperName.type sel) parsedValue))
  end.
End ProperNames.

(** [selection.sort((a, b) => a.index - b.index)]: the sort of an array is
    stable, so it is the insertion of each element before the first one
    that is not smaller. *)
Fixpoint insertByIndex (x : Span.t) (l : list Span.t) : list Span.t :=
  match l with
  | [] => [x]
  | y :: l' => if Span.index x <=? Span.index y then x :: l else y :: insertByIndex x l'
  end.

Definition sortByIndex (selection : list Span.t) : list Span.t :=
  fold_right insertByIndex [] selection.

Definition orEmpty {A : Type} (l : option (list A)) : list A :=
  match l with Some l => l | None => [] end.

(** [getSelectionArray(text, dates, selectedEventNoun, backwardsAdjAttributes,
    forwardAdjAttributes, selectedProperName)]; [selectedEventNoun] is never
    [null] at the call. *)
Definition getSelectionArray (text : string) (dates : list Detail.t)
    (selectedEventNoun : Span.t)
    (backwardsAdjAttributes forwardAdjAttributes : option (list Span.t))
    (selectedProperName : option ProperName.t) : list Span.t :=
  let selection :=
    forEach dates
            (fun selection date =>
               let dateIndex := indexOf text (Detail.value date) in
               selection ++ [Span.mk (Detail.value date) dateIndex (Detail.type date)])
            [] in
  let selection := selection ++ [selectedEventNoun] in
  let selection :=
    match selectedProperName with
    | Some p => selection ++ [ProperName.toSpan p]
    | None => selection
    end in
  let selection := selection ++ orEmpty backwardsAdjAttributes in
  let selection := selection ++ orEmpty forwardAdjAttributes in
  sortByIndex selection.

Definition dateComponentPatterns : list string := ["date"; "ordinalDate"; "ordinalDateReverse"].
Definition timePatterns : list string := ["exactTime"; "timeRange"].

(** [array.indexOf(element) > -1] *)
Definition contains (l : list string) (x : string) : bool := arrayIndexOf l x >? -1.

(** [cleanJunkDates(dates)]; [dateComponents[0]] and [times[0]] are read
    only under a guard that makes them exist. *)
Definition cleanJunkDates (dates : list Detail.t) : list Detail.t :=
  let dateComponents := filter (fun d => contains dateComponentPatterns (Detail.type d)) dates in
  let times := filter (fun t => contains timePatterns (Detail.type t)) dates in
  let cleanDates := dates in
  let cleanDates :=
    match dateComponents with
    | first :: _ :: _ =>
        filter (fun d => contains timePatterns (Detail.type d) ||
                         String.eqb (Detail.value d) (Detail.value first))
               cleanDates
    | _ => cleanDates
    end in
  let cleanDates :=
    match times with
    | first :: _ :: _ =>
        filter (fun d => contains dateComponentPatterns (Detail.type d) ||
                         String.eqb (Detail.value d) (Detail.value first))
               cleanDates
    | _ => cleanDates
    end in
  cleanDates.

(** The text handed to the date parser by [parseDates]:
    [dates.map(e => e.value).toString().replaceAll(",", " ")]. *)
Definition timeRelatedString (dates : list Detail.t) : string :=
  replaceCommas (arrayToString (map Detail.value dates)).

(** [getEventTitle(backwardsAdjAttributes, forwardAdjAttributes,
    selectedEventNoun, selectedProperName)] *)
Definition getEventTitle (backwardsAdjAttributes forwardAdjAttributes : option (list Span.t))
    (selectedEventNoun : Span.t) (selectedProperName : option ProperName.t) : string :=
  let eventTitle := "" in
  let eventTitle :=
    match backwardsAdjAttributes with
    | Some b => forEach (rev b) (fun t a => t +++ Span.value a +++ " ") eventTitle
    | None => eventTitle
    end in
  let eventTitle := eventTitle +++ Span.value selectedEventNoun in
  let eventTitle :=
    match forwardAdjAttributes with
    | Some f => forEach f (fun t a => t +++ Span.value a +++ " ") (eventTitle +++ " ")
    | None => eventTitle
    end in
  match selectedProperName with
  | Some p => eventTitle +++ " " +++ ProperName.parsedValue p
  | None => eventTitle
  end.

(* ================================================================== *)
(** * The controller object and its life cycle *)
(* ================================================================== *)

(** The fields of [NlpController] that the engine reads; [_mainNLP] and
    [_secondaryNLP] hold what each wink instance has learned. (The fields
    that only [test] and [print] use are left out.) *)
Record NlpController : Type := mkController {
  _customPatterns : list CustomPattern;
  _secondaryCustomPatterns : list CustomPattern;
  _pluginPath : option string;
  _mainNLP : list CustomPattern;
  _secondaryNLP : list CustomPattern;
  _ready : bool
}.

(** [constructor()] *)
Definition constructor : NlpController :=
  mkController [] [] None [] [] false.

(** [injectPath(pluginPath)] *)
Definition injectPath (this : NlpController) (pluginPath : string) : NlpController :=
  mkController (_customPatterns this) (_secondaryCustomPatterns this) (Some pluginPath)
               (_mainNLP this) (_secondaryNLP this) (_ready this).

(** The fixed rules of the grammar, in the order [loadPatterns] pushes them. *)
Definition grammar (parsedNouns : list string) : list CustomPattern :=
  [ mkPattern "date" ["[|DATE] [|may] [|march] "; "on DATE"];
    mkPattern "ordinalDate" ["[ORDINAL] [|ADP] [DATE|may|march] [|DATE]"];
    mkPattern "ordinalDateReverse" [" [|DATE] [DATE|may|march] [|DET] [ORDINAL]"];
    mkPattern "timeRange"
      ["[|ADP] [TIME|CARDINAL|NUM] [|am|pm] [|ADP] [TIME|CARDINAL|NUM] [|am|pm]";
       "[TIME|CARDINAL] [-|/] [TIME|CARDINAL]"];
    mkPattern "exactTime" ["[at|for] [CARDINAL|TIME]"];
    mkPattern "intentionalVerb" ["[|AUX] [VERB] [|ADP] [|DET] [NOUN]"];
    mkPattern "purpose"
      ["[|PART] [VERB] [|VERB] [|ADJ] [NOUN] [|NOUN|ADJ] [|CCONJ] [|NOUN|ADJ] [|NOUN|ADJ]"];
    mkPattern "eventNoun" parsedNouns ].

Section LifeCycle.
Context {files : PatternFiles}.

(** [loadPatterns()]: both files are read and parsed before any field
    is written, so a failure leaves the object as it was. *)
Definition loadPatterns (this : NlpController) : Exn NlpController :=
  let nounPatternPath := show (_pluginPath this) +++ "/.noun_patterns.txt" in
  let properNamePatternPath := show (_pluginPath this) +++ "/.proper_name_patterns.txt" in
  match readPatternFile nounPatternPath with
  | None => Throw "cannot load the noun patterns"
  | Some parsedNouns =>
      match readPatternFile properNamePatternPath with
      | None => Throw "cannot load the proper name patterns"
      | Some parsedProperNames =>
          Ok (mkController
                (_customPatterns this ++ grammar parsedNouns)
                (_secondaryCustomPatterns this ++ [mkPattern "properName" parsedProperNames])
                (_pluginPath this)
                (_mainNLP this)
                [mkPattern "properName" parsedProperNames]
                (_ready this))
      end
  end.

(** [init()] *)
Definition init (this : NlpController) : Exn NlpController :=
  match loadPatterns this with
  | Throw m => Throw m
  | Ok this =>
      Ok (mkController (_customPatterns this) (_secondaryCustomPatterns this)
                       (_pluginPath this)
                       (_customPatterns this)
                       (_secondaryCustomPatterns this)
                       true)
  end.

(** The calls a client makes before it processes sentences. *)
Inductive Setup : Type :=
| InjectPath (pluginPath : string)
| Init.

Definition perform (this : NlpController) (op : Setup) : Exn NlpController :=
  match op with
  | InjectPath pluginPath => Ok (injectPath this pluginPath)
  | Init => init this
  end.

(** The object after a list of calls (a call that raises leaves it as it
    was), and whether some [init()] has completed among them. *)
Fixpoint setup (this : NlpController) (ops : list Setup) : NlpController * bool :=
  match ops with
  | [] => (this, false)
  | op :: ops' =>
      match perform this op with
      | Throw _ => setup this ops'
      | Ok this' =>
          let '(final, completed) := setup this' ops' in
          (final, match op with Init => true | InjectPath _ => completed end)
      end
  end.
End LifeCycle.

(* ================================================================== *)
(** * [process] *)
(* ================================================================== *)

(** What [process] hands back: [null], [undefined] (the bare [return;]),
    [{selection, event}], or an exception that escapes it. *)
Inductive Outcome : Type :=
| RNull
| RUndefined
| RResult (selection : list Span.t) (event : Event)
| RThrow (msg : string).

(** The calls to the collaborators, in the order they are made. *)
Inductive Call : Type :=
| CallSyntacticCheck (s : Sentence)
| CallSemanticCheck (s : Sentence)
| CallCreateNewEvent (s : Sentence)
| CallMainReadDoc (text : string)
| CallSecondaryReadDoc (text : string)
| CallParse (text : string).

(** [{caseInsensitiveText, mainCustomEntities, secondaryCustomEntities,
    tokens, pos}] *)
Record AuxiliaryStructures : Type := mkAux {
  caseInsensitiveText : string;
  mainCustomEntities : list Detail.t;
  secondaryCustomEntities : list Detail.t;
  aux_tokens : Tokens.t;
  aux_pos : list string
}.

(** [matchedEvent != null && matchedEvent.processed == true] *)
Definition isProcessed (matchedEvent : option Event) : bool :=
  match matchedEvent with
  | Some e => processed e
  | None => false
  end.

(** Lines 120-131 of [process]: the event noun, directly or through the
    intentional verb; [None] is the [return null] of line 124. *)
Definition process_selectEventNoun (aux : AuxiliaryStructures)
    (eventNouns : list Detail.t) (selectedDateIndex : Z) : option Span.t :=
  let selectedEventNoun := findEventNoun (caseInsensitiveText aux) eventNouns selectedDateIndex in
  if Span.index selectedEventNoun =? -1 then
    let selectedIntentionalVerb :=
      findIntentionalVerb (mainCustomEntities aux) (aux_tokens aux)
                          (caseInsensitiveText aux) selectedDateIndex in
    if IntentionalVerb.index selectedIntentionalVerb =? -1 then None
    else Some (Span.mk (IntentionalVerb.noun selectedIntentionalVerb)
                       (indexOf (caseInsensitiveText aux)
                                (IntentionalVerb.noun selectedIntentionalVerb))
                       "eventNoun")
  else Some selectedEventNoun.

Section Process.
Context {tagger : Tagger} {parser : SmartDateParser}
        {controller : EventController} {misc : MiscLib}.

(** What a call of [process] can change: the store of the identity
    collaborator and the sentence object it was given; [trace] records
    the calls to the collaborators. *)
Record St : Type := mkSt {
  world : World;
  sentence : Sentence;
  trace : list Call
}.

(** A step of [process]: it goes on with a value ([inl]) or leaves
    [process] with an outcome ([inr]: a [return] or an exception). *)
Definition M (A : Type) : Type := St -> (A + Outcome) * St.

Definition pure {A : Type} (a : A) : M A := fun st => (inl a, st).

Definition returns {A : Type} (o : Outcome) : M A := fun st => (inr o, st).

Definition bind {A B : Type} (m : M A) (k : A -> M B) : M B :=
  fun st =>
    match m st with
    | (inl a, st') => k a st'
    | (inr o, st') => (inr o, st')
    end.

Notation "x <- m ;; k" := (bind m (fun x => k))
  (at level 61, m at next level, right associativity).

Definition liftExn {A : Type} (e : Exn A) : M A :=
  match e with
  | Ok a => pure a
  | Throw m => returns (RThrow m)
  end.

Definition getSentence : M Sentence := fun st => (inl (sentence st), st).

Definition setSentence (s : Sentence) : M unit :=
  fun st => (inl tt, mkSt (world st) s (trace st)).

Definition log (c : Call) : M unit :=
  fun st => (inl tt, mkSt (world st) (sentence st) (trace st ++ [c])).

(** [eventController.syntacticCheck(sentence)] *)
Definition callSyntacticCheck : M (option Event) :=
  fun st =>
    let '(r, w) := syntacticCheck (sentence st) (world st) in
    (inl r, mkSt w (sentence st) (trace st ++ [CallSyntacticCheck (sentence st)])).

(** [eventController.semanticCheck(sentence)] *)
Definition callSemanticCheck : M (option Event) :=
  fun st =>
    let '(r, w) := semanticCheck (sentence st) (world st) in
    (inl r, mkSt w (sentence st) (trace st ++ [CallSemanticCheck (sentence st)])).

(** [eventController.createNewEvent(sentence)] *)
Definition callCreateNewEvent : M Event :=
  fun st =>
    let '(e, w) := createNewEvent (sentence st) (world st) in
    (inl e, mkSt w (sentence st) (trace st ++ [CallCreateNewEvent (sentence st)])).

(** [getAuxiliaryStructures(sentence)] *)
Definition getAuxiliaryStructures (this : NlpController) : M AuxiliaryStructures :=
  sentence <- getSentence ;;
  let caseInsensitiveText := toLowerCase (value sentence) in
  _ <- log (CallMainReadDoc caseInsensitiveText) ;;
  let mainDoc := readDoc (_mainNLP this) caseInsensitiveText in
  _ <- log (CallSecondaryReadDoc caseInsensitiveText) ;;
  let secondaryDoc := readDoc (_secondaryNLP this) caseInsensitiveText in
  let mainCustomEntities := customEntities mainDoc in
  let secondaryCustomEntities := customEntities secondaryDoc in
  let tokens := tokens mainDoc in
  let pos := Tokens.out_pos tokens in
  pure (mkAux caseInsensitiveText mainCustomEntities secondaryCustomEntities tokens pos).

(** [parseDates(dates)] *)
Definition parseDates (dates : list Detail.t) : M (option DateRange) :=
  let timeRelatedString := timeRelatedString dates in
  _ <- log (CallParse timeRelatedString) ;;
  let parsed := parse timeRelatedString in
  pure (getDates parsed).

(** [process(sentence)] *)
Definition process (this : NlpController) : M Outcome :=
  if negb (_ready this) then returns RNull else
  (* First match - Syntactic check *)
  matchedEvent <- callSyntacticCheck ;;
  if isProcessed matchedEvent then returns RNull else
  auxiliaryStructures <- getAuxiliaryStructures this ;;
  let mainCustomEntities := mainCustomEntities auxiliaryStructures in
  let secondaryCustomEntities := secondaryCustomEntities auxiliaryStructures in
  let caseInsensitiveText := caseInsensitiveText auxiliaryStructures in
  let tokens := aux_tokens auxiliaryStructures in
  let pos := aux_pos auxiliaryStructures in
  let dates := filterDates mainCustomEntities in
  let properNames := filterProperNames secondaryCustomEntities in
  let eventNouns := filterEventNoun mainCustomEntities in
  let purposes := filterPurposes mainCustomEntities in
  match nthZ dates 0 with
  | None => returns RNull                       (* [dates.length == 0] *)
  | Some firstDate =>
      let selectedDateIndex := indexOf caseInsensitiveText (Detail.value firstDate) in
      match process_selectEventNoun auxiliaryStructures eventNouns selectedDateIndex with
      | None => returns RNull
      | Some selectedEventNoun =>
          sentence <- getSentence ;;
          (* Find possible proper names (John) *)
          selectedProperName <-
            liftExn (findProperName (value sentence) properNames selectedEventNoun) ;;
          (* Find possible common noun associated to the event noun (board meeting) *)
          backwardsAdjAttributes <-
            liftExn (findAdjAttributes tokens pos selectedEventNoun selectedProperName
                       (Span.index selectedEventNoun) selectedDateIndex true) ;;
          forwardAdjAttributes <-
            liftExn (findAdjAttributes tokens pos selectedEventNoun selectedProperName
                       (Span.index selectedEventNoun) selectedDateIndex false) ;;
          let cleanDates := cleanJunkDates dates in
          (* Fill selection array *)
          let selection :=
            getSelectionArray caseInsensitiveText cleanDates selectedEventNoun
                              backwardsAdjAttributes forwardAdjAttributes
                              selectedProperName in
          (* From natural language to dates *)
          dateRange <- parseDates cleanDates ;;
          match dateRange with
          | None => returns RUndefined          (* [return;] *)
          | Some dateRange =>
              (* Semantic check *)
              matchedEvent <-
                match matchedEvent with
                | None =>
                    _ <- setSentence
                           (injectSemanticFields sentence (start dateRange)
                              (end_ dateRange) (Span.value selectedEventNoun)) ;;
                    let eventTitle :=
                      getEventTitle backwardsAdjAttributes forwardAdjAttributes
                                    selectedEventNoun selectedProperName in
                    sentence <- getSentence ;;
                    _ <- setSentence (set_eventNoun sentence eventTitle) ;;
                    callSemanticCheck
                | Some _ => pure matchedEvent
                end ;;
              (* Semantic check successful *)
              if isProcessed matchedEvent then returns RNull else
              match matchedEvent with
              | None =>
                  (* Semantic check unsuccessful -> new event *)
                  event <- callCreateNewEvent ;;
                  returns (RResult selection event)
              | Some event => returns (RResult selection event)
              end
          end
      end
  end.

(** One call [process(sentence)] on a controller [this], with the
    identity collaborator in store [w]: the outcome and the final state. *)
Definition runProcess (this : NlpController) (s : Sentence) (w : World) : Outcome * St :=
  match process this (mkSt w s []) with
  | (inl o, st) => (o, st)
  | (inr o, st) => (o, st)
  end.

Definition outcome (this : NlpController) (s : Sentence) (w : World) : Outcome :=
  fst (runProcess this s w).

Definition calls (this : NlpController) (s : Sentence) (w : World) : list Call :=
  trace (snd (runProcess this s w)).

End Process.

(* ================================================================== *)
(** * Concrete collaborators, for the examples *)
(* ================================================================== *)

Module Sample.

Definition tok (v p : string) : Token.t := Token.mk v p.
Definition ent (v ty : string) : Detail.t := Detail.mk v ty.

(** The spec's running example. *)
Definition boardText : string := "Board meeting with John on March 3rd at 2pm".
Definition boardMain : Doc :=
  mkDoc [ent "meeting" "eventNoun"; ent "on march" "date"; ent "at 2pm" "exactTime"]
        [tok "board" "NOUN"; tok "meeting" "NOUN"; tok "with" "ADP"; tok "john" "PROPN";
         tok "on" "ADP"; tok "march" "PROPN"; tok "3rd" "ADJ"; tok "at" "ADP";
         tok "2pm" "NUM"].
Definition boardSecondary : Doc :=
  mkDoc [ent "with john" "properName"] (tokens boardMain).

(** Two words before the event noun. *)
Definition annualText : string := "On Friday annual board meeting".
Definition annualMain : Doc :=
  mkDoc [ent "on friday" "date"; ent "meeting" "eventNoun"]
        [tok "on" "ADP"; tok "friday" "PROPN"; tok "annual" "ADJ";
         tok "board" "NOUN"; tok "meeting" "NOUN"].

(** No event noun of the lexicon: the intentional verb path. *)
Definition callText : string := "I want to schedule a call tomorrow".
Definition callMain : Doc :=
  mkDoc [ent "schedule a call" "intentionalVerb"; ent "tomorrow" "date"]
        [tok "i" "PRON"; tok "want" "VERB"; tok "to" "PART"; tok "schedule" "VERB";
         tok "a" "DET"; tok "call" "NOUN"; tok "tomorrow" "NOUN"].

(** A sentence without a date. *)
Definition noDateText : string := "Board meeting with John".
Definition noDateMain : Doc :=
  mkDoc [ent "meeting" "eventNoun"]
        [tok "board" "NOUN"; tok "meeting" "NOUN"; tok "with" "ADP"; tok "john" "PROPN"].

(** A date and nothing to anchor to it. *)
Definition bareText : string := "Tomorrow".
Definition bareMain : Doc := mkDoc [ent "tomorrow" "date"] [tok "tomorrow" "NOUN"].

Definition emptyDoc : Doc := mkDoc [] [].

Definition learnedProperNames (learned : list CustomPattern) : bool :=
  existsb (fun p => String.eqb (name p) "properName") learned.

Definition mainDocOf (text : string) : Doc :=
  if String.eqb text (toLowerCase boardText) then boardMain
  else if String.eqb text (toLowerCase annualText) then annualMain
  else if String.eqb text (toLowerCase callText) then callMain
  else if String.eqb text (toLowerCase noDateText) then noDateMain
  else if String.eqb text (toLowerCase bareText) then bareMain
  else emptyDoc.

Definition secondaryDocOf (text : string) : Doc :=
  if String.eqb text (toLowerCase boardText) then boardSecondary
  else mkDoc [] (tokens (mainDocOf text)).

#[export] Instance tagger : Tagger :=
  {| readDoc learned text :=
       if learnedProperNames learned then secondaryDocOf text else mainDocOf text |}.

(** A parser that understands the cleaned dates of the examples. *)
#[export] Instance parser : SmartDateParser :=
  {| ParsedResult := DateRange;
     parse text :=
       if String.eqb text "on march at 2pm" then [mkDateRange 1400 1500]
       else if String.eqb text "on friday" then [mkDateRange 0 60]
       else if String.eqb text "tomorrow" then [mkDateRange 0 60]
       else [];
     getDates parsed := nthZ parsed 0 |}.

(** A parser that never finds a range. *)
Definition deafParser : SmartDateParser :=
  {| ParsedResult := unit; parse _ := []; getDates _ := None |}.

(** An identity collaborator over a list of known events, keyed by the
    text of the sentence (syntactic check) and by its title (semantic
    check). *)
Record Known : Type := mkKnown { knownText : string; knownTitle : string; knownEvent : Event }.

Definition lookupText (w : list Known) (s : Sentence) : option Event :=
  option_map knownEvent (find (fun k => String.eqb (knownText k) (value s)) w).

Definition lookupTitle (w : list Known) (s : Sentence) : option Event :=
  match eventNoun s with
  | Some title => option_map knownEvent (find (fun k => String.eqb (knownTitle k) title) w)
  | None => None
  end.

#[export] Instance controller : EventController :=
  {| World := list Known;
     syntacticCheck s w := (lookupText w s, w);
     semanticCheck s w := (lookupTitle w s, w);
     createNewEvent s w :=
       let e := mkEvent (List.length w) false in
       (e, w ++ [mkKnown (value s) (JS.show (eventNoun s)) e]) |}.

#[export] Instance misc : MiscLib :=
  {| isLowerCase c := match c with Some c => isLowerAscii c | None => false end |}.

#[export] Instance files : PatternFiles :=
  {| readPatternFile path :=
       if String.eqb path "/vault/.noun_patterns.txt" then Some ["meeting"; "lunch"]
       else if String.eqb path "/vault/.proper_name_patterns.txt"
            then Some ["john"; "[ADP] john"; "mary"; "[ADP] mary"]
            else None |}.

Definition sentenceOf (text : string) : Sentence := mkSentence text None None None.

(** A sentence whose words lie more than 1000 characters apart. *)
Fixpoint spaces (n : nat) : string :=
  match n with
  | O => ""
  | S n' => String " " (spaces n')
  end.

Definition farText : string := "Lunch" +++ spaces 1000 +++ "John tomorrow".

(** A controller after [injectPath("/vault")] and [init()]. *)
Definition ready : NlpController := fst (setup constructor [InjectPath "/vault"; Init]).

End Sample.

(* ================================================================== *)
(** * Statements of the specification *)
(* ================================================================== *)

(** [c] is the first element of [l], in scan order, whose distance is the
    smallest: strictly nearer than everything before it, and at least as
    near as everything after it. *)
Definition firstNearest {A : Type} (dist : A -> Z) (l : list A) (c : A) : Prop :=
  exists l1 l2,
    l = l1 ++ c :: l2 /\
    (forall y, In y l1 -> dist c < dist y) /\
    (forall y, In y l2 -> dist c <= dist y).

(** The first-occurrence offset of a candidate in the text, and its
    distance in characters to an anchor offset. *)
Definition offsetIn (text : string) (d : Detail.t) : Z := indexOf text (Detail.value d).

Definition distanceTo (text : string) (anchor : Z) (d : Detail.t) : Z :=
  Z.abs (offsetIn text d - anchor).

Definition spanOf (text : string) (d : Detail.t) : Span.t :=
  Span.mk (Detail.value d) (offsetIn text d) (Detail.type d).

(** The resolved span [r] is the candidate nearest to the anchor, the
    first-encountered one winning ties. *)
Definition ResolvesNearest (text : string) (candidates : list Detail.t) (anchor : Z)
    (r : Span.t) : Prop :=
  exists c, firstNearest (distanceTo text anchor) candidates c /\ r = spanOf text c.

(** The shape shared by the callbacks of the three [forEach] scans:
    keep the candidate when it is strictly nearer than the best so far. *)
Definition scan_body {A S : Type} (dist : A -> Z) (upd : S -> A -> S)
    (st : S * Z) (x : A) : S * Z :=
  if dist x <? snd st then (upd (fst st) x, dist x) else st.

(** ** The intentional-verb fallback *)

(** The intentional-verb matches among the tagged spans. *)
Definition intentionalVerbsOf (customEntities : list Detail.t) : list Detail.t :=
  filter (typeIs "intentionalVerb") customEntities.

Definition isVerb (t : Token.t) : bool := String.eqb (Token.pos t) "VERB".

(** The first token of the whole sentence that is tagged as a verb. *)
Definition firstVerbOfSentence (tokens : Tokens.t) : option string :=
  option_map Token.value (find isVerb tokens).

(** The verb of a matched phrase: its first word that is a verb token. *)
Definition verbOfPhrase (tokens : Tokens.t) (phrase : string) : option string :=
  find (fun w => existsb (fun t => String.eqb (Token.value t) w && isVerb t) tokens)
       (split phrase).

(** ["<verb token> <last word of the matched phrase>"] *)
Definition nounPhrase (verb : option string) (phrase : string) : string :=
  show verb +++ " " +++ show (JS.last (split phrase)).

(** The fallback as the specification words it: the nearest match, and
    the phrase built from the verb of that match. *)
Definition FallbackAsStated (tokens : Tokens.t) (text : string) (verbs : list Detail.t)
    (anchor : Z) (r : IntentionalVerb.t) : Prop :=
  exists c, firstNearest (distanceTo text anchor) verbs c /\
            IntentionalVerb.value r = Detail.value c /\
            IntentionalVerb.index r = offsetIn text c /\
            IntentionalVerb.noun r = nounPhrase (verbOfPhrase tokens (Detail.value c))
                                                (Detail.value c).


(** ** Statements about [process] *)

(** The structures that [getAuxiliaryStructures] builds for a sentence. *)
Definition auxOf {tagger : Tagger} (this : NlpController) (s : Sentence) : AuxiliaryStructures :=
  let text := toLowerCase (value s) in
  let mainDoc := readDoc (_mainNLP this) text in
  mkAux text (customEntities mainDoc)
        (customEntities (readDoc (_secondaryNLP this) text))
        (tokens mainDoc) (Tokens.out_pos (tokens mainDoc)).

(** The syntactic check finds an event that is already processed. *)
Definition alreadyProcessed {controller : EventController} (s : Sentence) (w : World) : bool :=
  isProcessed (fst (syntacticCheck s w)).

(** No event is created along a trace. *)
Definition createsNoEvent (tr : list Call) : Prop :=
  forall s, ~ In (CallCreateNewEvent s) tr.

(** The ways a sentence gives no evidence of an event. *)
Inductive NoEvidence : Type :=
| NoDate         (* zero date-category tagged spans *)
| NoAnchor       (* no event-noun candidate and no intentional-verb candidate *)
| NoRange.       (* the date parser yields no usable range *)

Section NoEvidence.
Context {tagger : Tagger} {parser : SmartDateParser}
        {controller : EventController} {misc : MiscLib}.

Definition noEvidence (why : NoEvidence) (this : NlpController) (s : Sentence)
    (w : World) : Prop :=
  let entities := mainCustomEntities (auxOf this s) in
  match why with
  | NoDate => filterDates entities = []
  | NoAnchor => filterEventNoun entities = [] /\ intentionalVerbsOf entities = []
  | NoRange => exists phrase, In (CallParse phrase) (calls this s w) /\
                              getDates (parse phrase) = None
  end.
End NoEvidence.

(** What [process] hands back in each case. *)
Definition negativeResult (why : NoEvidence) : Outcome :=
  match why with
  | NoDate | NoAnchor => RNull
  | NoRange => RUndefined
  end.

(** ** The adjacency walk, as the specification words it *)

(** The tokens next to the event noun (the token of index [tokenIndex])
    in one direction, the nearest first. *)
Definition adjacentTokens (tokens : Tokens.t) (tokenIndex : nat) (backward : bool) : Tokens.t :=
  if backward then rev (firstn tokenIndex tokens) else skipn (S tokenIndex) tokens.

(** The tags of the words a walk collects, and the tags a list of
    attributes cannot end on. *)
Definition walkTags : list string := ["NOUN"; "ADJ"; "ADP"; "PRON"].
Definition danglingTags : list string := ["ADP"; "PRON"].

Definition tagged (tags : list string) (tag : string) : bool :=
  existsb (String.eqb tag) tags.

Fixpoint takeWhile {A : Type} (p : A -> bool) (l : list A) : list A :=
  match l with
  | x :: l' => if p x then x :: takeWhile p l' else []
  | [] => []
  end.

(** The collected words with their computed offsets: each offset adds the
    offset of the event noun, moved by the length of the word plus one, to
    the running offset. *)
Fixpoint computedSpans (eventNounIndex : Z) (backward : bool) (cumulativeIndex : Z)
    (collected : list Token.t) : list Span.t :=
  match collected with
  | [] => []
  | t :: rest =>
      let offset :=
        cumulativeIndex +
        (if backward then eventNounIndex - (strlen (Token.value t) + 1)
         else eventNounIndex + (strlen (Token.value t) + 1)) in
      Span.mk (Token.value t) offset (Token.pos t)
      :: computedSpans eventNounIndex backward offset rest
  end.

(** A collected word equals the value of the resolved person name. *)
Definition equalsPersonName (person : option ProperName.t) (collected : list Span.t) : bool :=
  match person with
  | Some p => existsb (fun a => String.eqb (Span.value a) (ProperName.value p)) collected
  | None => false
  end.

(** The computed offset of a collected word equals the offset of the date
    anchor. *)
Definition onDateAnchor (selectedDateIndex : Z) (collected : list Span.t) : bool :=
  existsb (fun a => Span.index a =? selectedDateIndex) collected.

(** The list without its trailing words tagged ADP or PRON. *)
Fixpoint withoutDangling (l : list Span.t) : list Span.t :=
  match l with
  | [] => []
  | a :: r =>
      match withoutDangling r with
      | [] => if tagged danglingTags (Span.type a) then [] else [a]
      | r' => a :: r'
      end
  end.

Definition walkAsStated (tokens : Tokens.t) (tokenIndex : nat)
    (selectedProperName : option ProperName.t) (eventNounIndex selectedDateIndex : Z)
    (backward : bool) : option (list Span.t) :=
  let collected :=
    computedSpans eventNounIndex backward 0
                  (takeWhile (fun t => tagged walkTags (Token.pos t))
                             (adjacentTokens tokens tokenIndex backward)) in
  if equalsPersonName selectedProperName collected ||
     onDateAnchor selectedDateIndex collected
  then None
  else match withoutDangling collected with
       | [] => None
       | attributes => Some attributes
       end.

(** ** The loops of [findAdjAttributes] over lists *)

(** The condition of the first [while], on a token. *)
Definition hasWalkTag (t : Token.t) : bool := isWalkTag (Some (Token.pos t)).

(** One of the two [return null] of the first [while] is taken for a
    word of the list. *)
Definition discards (selectedProperName : option ProperName.t) (selectedDateIndex : Z)
    (collected : list Span.t) : bool :=
  existsb (fun a => isNameWord selectedProperName (Span.value a) ||
                    (Span.index a =? selectedDateIndex))
          collected.

(** What the second [while] leaves of a list. *)
Fixpoint dropTrailing (l : list Span.t) : list Span.t :=
  match l with
  | [] => []
  | a :: r =>
      match dropTrailing r with
      | [] => if isAdpOrPron (Span.type a) then [] else [a]
      | r' => a :: r'
      end
  end.

(** The first [while] of [findAdjAttributes] over the tokens that lie
    ahead of it, instead of over indices. *)
Fixpoint walkList (selectedProperName : option ProperName.t)
    (eventNounIndex selectedDateIndex : Z) (backward : bool)
    (ahead : list Token.t) (cumulativeIndex : Z) (selected : list Span.t) : Walk :=
  match ahead with
  | [] => WalkEnd selected
  | t :: rest =>
      if hasWalkTag t then
        if isNameWord selectedProperName (Token.value t) then WalkReturnNull else
        let offset :=
          cumulativeIndex +
          (if backward then eventNounIndex - (strlen (Token.value t) + 1)
           else eventNounIndex + (strlen (Token.value t) + 1)) in
        if offset =? selectedDateIndex then WalkReturnNull else
        walkList selectedProperName eventNounIndex selectedDateIndex backward rest offset
                 (selected ++ [Span.mk (Token.value t) offset (Token.pos t)])
      else WalkEnd selected
  end.

(** ** Person-name resolution, as the specification words it *)

(** The leading preposition of a candidate: its first word, when it has
    more than one. *)
Definition adpositionOf (d : Detail.t) : option string :=
  let words := split (Detail.value d) in
  if (List.length words =? 1)%nat then None else nthZ words 0.

(** The name of a candidate: the word after the preposition, if any. *)
Definition nameOf (d : Detail.t) : string :=
  let words := split (Detail.value d) in
  show (match adpositionOf d with
        | Some _ => nthZ words 1
        | None => nthZ words 0
        end).

(** The offset of a candidate in the lower-cased sentence. *)
Definition nameOffset (text : string) (d : Detail.t) : Z :=
  indexOf (toLowerCase text) (Detail.value d).

Definition nameDistance (text : string) (selectedEventNoun : Span.t) (d : Detail.t) : Z :=
  Z.abs (nameOffset text d - Span.index selectedEventNoun).

(** ["<adposition> <Capitalized name>"] or ["with <Capitalized name>"]. *)
Definition rendered (d : Detail.t) : string :=
  match adpositionOf d with
  | Some a => a +++ " " +++ capitalize (nameOf d)
  | None => "with " +++ capitalize (nameOf d)
  end.

Definition personOf (text : string) (d : Detail.t) : ProperName.t :=
  ProperName.mk (nameOf d) (nameOffset text d) (Detail.type d) (rendered d).

(** All candidates carry the same leading preposition [a], or none does
    ([a] is [None]). *)
Definition uniformAdposition (a : option string) (properNames : list Detail.t) : Prop :=
  Forall (fun d => adpositionOf d = a) properNames.

Section PersonStatements.
Context {misc : MiscLib}.

(** The first letter of the name in the case-sensitive text, after the
    leading preposition if there is one. *)
Definition firstLetter (text : string) (d : Detail.t) : option ascii :=
  match adpositionOf d with
  | Some a => charAt text (nameOffset text d + strlen a + 1)
  | None => charAt text (nameOffset text d)
  end.

(** A candidate is rejected when that letter is lower-case. *)
Definition survives (text : string) (d : Detail.t) : bool :=
  negb (isLowerCase (firstLetter text d)).

(** The resolution as the specification words it: the nearest surviving
    candidate, rendered with its own preposition; none when no candidate
    survives. *)
Definition ResolvesPerson (text : string) (properNames : list Detail.t)
    (selectedEventNoun : Span.t) (r : Exn (option ProperName.t)) : Prop :=
  let survivors := filter (survives text) properNames in
  match survivors with
  | [] => r = Ok None
  | _ => exists c, firstNearest (nameDistance text selectedEventNoun) survivors c /\
                   r = Ok (Some (personOf text c))
  end.
End PersonStatements.

(** ** The selection *)

(** The index of a span is an offset into the text. *)
Definition validOffset (text : string) (a : Span.t) : bool :=
  (0 <=? Span.index a) && (Span.index a <? strlen text).

(** Every span of a successful result has a valid offset. *)
Definition selectionInBounds (text : string) (o : Outcome) : bool :=
  match o with
  | RResult selection _ => forallb (validOffset text) selection
  | _ => true
  end.

(** ** Date cleanup *)

Definition isDateComponent (d : Detail.t) : bool := contains dateComponentPatterns (Detail.type d).
Definition isTime (d : Detail.t) : bool := contains timePatterns (Detail.type d).

(** At most one date component and at most one time survive. *)
Definition atMostOneOfEach (dates : list Detail.t) : bool :=
  (List.length (filter isDateComponent dates) <=? 1)%nat &&
  (List.length (filter isTime dates) <=? 1)%nat.

(* ================================================================== *)
(** * Further statements about the controller *)
(* ================================================================== *)

From Stdlib Require Import Sorted Permutation.

(** ** The selection array *)

(** The order [selection.sort((a, b) => a.index - b.index)] establishes. *)
Definition byIndex (a b : Span.t) : Prop := Span.index a <= Span.index b.

(** The spans [getSelectionArray] pushes, in the order it pushes them. *)
Definition gathered (text : string) (dates : list Detail.t) (selectedEventNoun : Span.t)
    (backwardsAdjAttributes forwardAdjAttributes : option (list Span.t))
    (selectedProperName : option ProperName.t) : list Span.t :=
  map (spanOf text) dates ++ [selectedEventNoun] ++
  match selectedProperName with
  | Some p => [ProperName.toSpan p]
  | None => []
  end ++
  orEmpty backwardsAdjAttributes ++ orEmpty forwardAdjAttributes.

(** The spans of a list that carry a given index, in their order. *)
Definition atIndex (i : Z) (l : list Span.t) : list Span.t :=
  filter (fun a => Span.index a =? i) l.

(** ** The grammar a tagger has learned *)

Definition isProperNameRule (p : CustomPattern) : bool := String.eqb (name p) "properName".

(** The main tagger knows no proper-name rule, the secondary tagger
    knows nothing else. *)
Definition taggersApart (this : NlpController) : Prop :=
  forallb (fun p => negb (isProperNameRule p)) (_customPatterns this) = true /\
  forallb (fun p => negb (isProperNameRule p)) (_mainNLP this) = true /\
  forallb isProperNameRule (_secondaryCustomPatterns this) = true /\
  forallb isProperNameRule (_secondaryNLP this) = true.

(** ** The two filters of the date cleanup *)

(** The test of the first [filter] of [cleanJunkDates]: it lets
    everything through unless there are several date components. *)
Definition dateGate (dates : list Detail.t) (d : Detail.t) : bool :=
  match filter isDateComponent dates with
  | first :: _ :: _ => isTime d || String.eqb (Detail.value d) (Detail.value first)
  | _ => true
  end.

(** The test of the second [filter], likewise for several times. *)
Definition timeGate (dates : list Detail.t) (d : Detail.t) : bool :=
  match filter isTime dates with
  | first :: _ :: _ => isDateComponent d || String.eqb (Detail.value d) (Detail.value first)
  | _ => true
  end.

(** ** What [process] reads of the taggers *)

Definition notPurpose (d : Detail.t) : bool := negb (typeIs "purpose" d).

(** A tagger that reports what [T] reports, the purpose spans left out. *)
Definition withoutPurposes (T : Tagger) : Tagger :=
  {| readDoc learned text :=
       let doc := @readDoc T learned text in
       mkDoc (filter notPurpose (customEntities doc)) (tokens doc) |}.

(** ** The attributes around the event noun *)

(** The sum, over a list of attributes, of the length of the word plus
    one (the space that separates it from its neighbour). *)
Definition widths (l : list Span.t) : Z :=
  fold_right (fun a acc => strlen (Span.value a) + 1 + acc) 0 l.

(** An attribute is a token of the sentence that carries one of the four
    tags of the walk; it is not the name of the person and does not sit
    on the date anchor. *)
Definition isWalkToken (stringTokens : list string)
    (selectedProperName : option ProperName.t) (selectedDateIndex : Z) (a : Span.t) : Prop :=
  isWalkTag (Some (Span.type a)) = true /\
  In (Span.value a) stringTokens /\
  isNameWord selectedProperName (Span.value a) = false /\
  Span.index a <> selectedDateIndex.

(** The index the walk gives to the attribute of rank [n] (from 0) of a
    list: the offset of the event noun once per attribute so far, moved by
    the widths of those attributes. *)
Definition walkIndex (eventNounIndex : Z) (backward : bool) (l : list Span.t) (n : nat) : Z :=
  Z.of_nat (S n) * eventNounIndex +
  (if backward then - widths (firstn (S n) l) else widths (firstn (S n) l)).

(** What the loop of [findAdjAttributes] has collected so far: walk
    tokens, each at the index [walkIndex] gives to its rank, the running
    offset being the index of the last one. *)
Definition collectedSoFar (stringTokens : list string)
    (selectedProperName : option ProperName.t) (eventNounIndex selectedDateIndex : Z)
    (backward : bool) (cumulativeIndex : Z) (selected : list Span.t) : Prop :=
  Forall (isWalkToken stringTokens selectedProperName selectedDateIndex) selected /\
  (forall n a, nth_error selected n = Some a ->
               Span.index a = walkIndex eventNounIndex backward selected n) /\
  cumulativeIndex =
    Z.of_nat (List.length selected) * eventNounIndex +
    (if backward then - widths selected else widths selected).

(** ** The scan of the proper names *)

(** A candidate without a leading preposition comes after a candidate
    with one. *)
Definition prepositionThenNone (properNames : list Detail.t) : Prop :=
  exists l1 c l2 d l3,
    properNames = l1 ++ c :: l2 ++ d :: l3 /\
    adpositionOf c <> None /\ adpositionOf d = None.

(** The same as a test, [seen] telling whether a preposition was met. *)
Fixpoint raisesAfter (seen : bool) (properNames : list Detail.t) : bool :=
  match properNames with
  | [] => false
  | d :: rest =>
      match adpositionOf d with
      | Some _ => raisesAfter true rest
      | None => if seen then true else raisesAfter false rest
      end
  end.

Section NameScanStatements.
Context {misc : MiscLib}.

(** What the scan holds after some candidates of [properNames]: nothing
    yet, or one of them that passed the case filter and lies strictly
    less than 1000 characters from the event noun. *)
Definition scanned (text : string) (selectedEventNoun : Span.t)
    (properNames : list Detail.t) (st : NameScan) : Prop :=
  (selectedProperName st = ProperName.mk "" (-1) "" "" /\ properNameDistance st = 1000) \/
  exists c,
    In c properNames /\ survives text c = true /\
    selectedProperName st =
      ProperName.mk (nameOf c) (nameOffset text c) (Detail.type c) "" /\
    properNameDistance st = nameDistance text selectedEventNoun c /\
    nameDistance text selectedEventNoun c < 1000.
End NameScanStatements.

(** ** The phrase for the date parser and the title *)

(** Strings joined by single spaces. *)
Fixpoint joinSpaces (l : list string) : string :=
  match l with
  | [] => EmptyString
  | [x] => x
  | x :: l' => x +++ " " +++ joinSpaces l'
  end.

Fixpoint hasComma (s : string) : bool :=
  match s with
  | EmptyString => false
  | String c s' => Ascii.eqb c "," || hasComma s'
  end.

Fixpoint hasSpace (s : string) : bool :=
  match s with
  | EmptyString => false
  | String c s' => Ascii.eqb c " " || hasSpace s'
  end.

(** [word] is what follows the last space of [phrase] (the whole of it
    when it has no space). *)
Definition afterLastSpace (phrase word : string) : Prop :=
  hasSpace word = false /\
  exists before, phrase = before +++ word /\
                 (before = "" \/ exists b, before = b +++ " ").

(** The words of a list of attributes, each followed by a space. *)
Definition spaced (l : list Span.t) : string :=
  fold_right (fun a acc => Span.value a +++ " " +++ acc) "" l.

(** ** Occurrences of a fragment in the text *)

(** The fragment [pat] occurs in [text] at offset [i]. *)
Definition occursAt (text pat : string) (i : nat) : Prop :=
  substring i (String.length pat) text = pat.

(** [i] is the offset of the first occurrence of [pat] in [text], or [-1]
    when there is none. *)
Definition firstOccurrence (text pat : string) (i : Z) : Prop :=
  (i = -1 /\ forall p, ~ occursAt text pat p) \/
  (exists n, i = Z.of_nat n /\ occursAt text pat n /\
             forall p, (p < n)%nat -> ~ occursAt text pat p).

(* ================================================================== *)
(** * The single-tagger variant of the controller *)
(* ================================================================== *)

(** The second class [NlpController] of the file (one wink instance, no
    attribute walk): its private methods that differ from the ones above.
    [filterDates], [filterProperNames], [filterEventNoun], [findEventNoun],
    [cleanJunkDates] and [parseDates] are the same text in both. *)
Module Legacy.

(** [findIntentionalVerb(customEntities, text, selectedDateIndex)]: the
    callback of its [forEach] is the one of the other variant. *)
Definition findIntentionalVerb (customEntities : list Detail.t) (text : string)
    (selectedDateIndex : Z) : IntentionalVerb.t :=
  let selectedIntentionalVerb := IntentionalVerb.mk "" (-1) "" "" in
  let intentionalVerbs := filter (typeIs "intentionalVerb") customEntities in
  if (List.length intentionalVerbs =? 0)%nat then selectedIntentionalVerb else
  let verbDistance := 1000 in
  let selectedIntentionalVerb :=
    fst (forEach intentionalVerbs (findIntentionalVerb_body text selectedDateIndex)
                 (selectedIntentionalVerb, verbDistance)) in
  IntentionalVerb.mk
    (IntentionalVerb.value selectedIntentionalVerb)
    (IntentionalVerb.index selectedIntentionalVerb)
    (IntentionalVerb.type selectedIntentionalVerb)
    (show (JS.last (split (IntentionalVerb.value selectedIntentionalVerb)))).

(** [pos[i] != "NOUN"] *)
Definition notNoun (p : option string) : bool :=
  match p with
  | Some t => negb (String.eqb t "NOUN")
  | None => true
  end.

(** [findAdjacentCommonNoun(tokens, pos, eventNoun, eventNounIndex)] *)
Definition findAdjacentCommonNoun (tokens : Tokens.t) (pos : list string)
    (eventNoun : Span.t) (eventNounIndex : Z) : Exn (option Span.t) :=
  let stringTokens := Tokens.out tokens in
  let eventNounTokenIndex := arrayIndexOf stringTokens (Span.value eventNoun) in
  if eventNounTokenIndex <=? 0 then Ok None else
  let adjWord := nthZ stringTokens (eventNounTokenIndex - 1) in
  if notNoun (nthZ pos (eventNounTokenIndex - 1)) then Ok None else
  match adjWord with
  | None => Throw "TypeError: adjWord is undefined"
  | Some adjWord =>
      Ok (Some (Span.mk adjWord (eventNounIndex - (strlen adjWord + 1)) "commonNoun"))
  end.

Section ProperNames.
Context {misc : MiscLib}.

(** The callback of the [forEach] of [findProperName]; [adp] is local to
    it. *)
Definition findProperName_body (text : string) (selectedEventNoun : Z)
    (st : Span.t * Z) (properName : Detail.t) : Span.t * Z :=
  let '(selectedProperName, properNameDistance) := st in
  let pIndex := indexOf (toLowerCase text) (Detail.value properName) in
  let caseSensitiveFirstChar := charAt text pIndex in
  (* Checking ad-positions *)
  let adp :=
    if (List.length (split (Detail.value properName)) =? 1)%nat then None
    else nthZ (split (Detail.value properName)) 0 in
  let caseSensitiveFirstChar :=
    match adp with
    | Some a => charAt text (pIndex + strlen a + 1)
    | None => caseSensitiveFirstChar
    end in
  if isLowerCase caseSensitiveFirstChar then (selectedProperName, properNameDistance)
  else
    let distanceFromEventNoun := Z.abs (pIndex - selectedEventNoun) in
    if distanceFromEventNoun <? properNameDistance
    then (Span.mk (Detail.value properName) pIndex (Detail.type properName),
          distanceFromEventNoun)
    else (selectedProperName, properNameDistance).

(** [findProperName(text, properNames, selectedEventNoun)], the last
    argument being the offset of the event noun. *)
Definition findProperName (text : string) (properNames : list Detail.t)
    (selectedEventNoun : Z) : option Span.t :=
  let selectedProperName := Span.mk "" (-1) "" in
  let properNameDistance := 1000 in
  let selectedProperName :=
    fst (forEach properNames (findProperName_body text selectedEventNoun)
                 (selectedProperName, properNameDistance)) in
  if Span.index selectedProperName =? -1 then None else Some selectedProperName.
End ProperNames.

End Legacy.
(* ================================================================== *)
(** * Scans that keep the nearest candidate *)
(* ================================================================== *)

Section Scan.
Variables (A S T : Type).
Variable dist : A -> Z.
Variable upd : S -> A -> S.
Variable proj : S -> T.
Variable pick : A -> T.
Hypothesis proj_upd : forall s x, proj (upd s x) = pick x.

Lemma firstNearest_head (x : A) (l : list A) :
  (forall y, In y l -> dist x <= dist y) -> firstNearest dist (x :: l) x.
Proof.
  intros H. exists [], l. split; [reflexivity|]. split; [|exact H].
  intros y [].
Qed.

Lemma firstNearest_tail (x c : A) (l : list A) :
  dist c < dist x -> firstNearest dist l c -> firstNearest dist (x :: l) c.
Proof.
  intros Hlt (l1 & l2 & -> & H1 & H2).
  exists (x :: l1), l2. split; [reflexivity|]. split; [|exact H2].
  intros y [<-|Hy]; [exact Hlt|now apply H1].
Qed.

Lemma firstNearest_In (l : list A) (c : A) : firstNearest dist l c -> In c l.
Proof.
  intros (l1 & l2 & -> & _). apply in_or_app. right. now left.
Qed.

Lemma firstNearest_le (l : list A) (c y : A) :
  firstNearest dist l c -> In y l -> dist c <= dist y.
Proof.
  intros (l1 & l2 & -> & H1 & H2) Hy.
  apply in_app_or in Hy. destruct Hy as [Hy|[<-|Hy]].
  - specialize (H1 _ Hy). lia.
  - lia.
  - now apply H2.
Qed.

(** A scan from a state [(s0, d0)] either keeps it, every candidate
    lying at [d0] or farther, or ends on the first nearest candidate,
    which lies strictly nearer than [d0]. *)
Lemma scan_spec (l : list A) :
  forall s0 d0,
    (fold_left (scan_body dist upd) l (s0, d0) = (s0, d0) /\ forall y, In y l -> d0 <= dist y) \/
    (exists c, firstNearest dist l c /\ dist c < d0 /\
               proj (fst (fold_left (scan_body dist upd) l (s0, d0))) = pick c /\
               snd (fold_left (scan_body dist upd) l (s0, d0)) = dist c).
Proof.
  induction l as [|x l IH]; intros s0 d0.
  - left. split; [reflexivity|]. intros y [].
  - change (fold_left (scan_body dist upd) (x :: l) (s0, d0))
      with (fold_left (scan_body dist upd) l (scan_body dist upd (s0, d0) x)).
    unfold scan_body at 2 4 6. cbn [fst snd].
    destruct (Z.ltb_spec (dist x) d0) as [Hlt|Hge].
    + right. destruct (IH (upd s0 x) (dist x)) as [[Heq Hall]|(c & Hc & Hd & Hp & Hs)].
      * exists x. rewrite Heq. cbn [fst snd].
        repeat split; auto using firstNearest_head.
      * exists c. repeat split; auto using firstNearest_tail. lia.
    + destruct (IH s0 d0) as [[Heq Hall]|(c & Hc & Hd & Hp & Hs)].
      * left. split; [exact Heq|]. intros y [<-|Hy]; auto.
      * right. exists c. repeat split; auto.
        apply firstNearest_tail; auto. lia.
Qed.
End Scan.

Lemma findEventNoun_body_scan (text : string) (anchor : Z) (st : Span.t * Z) (n : Detail.t) :
  findEventNoun_body text anchor st n =
  scan_body (distanceTo text anchor) (fun _ c => spanOf text c) st n.
Proof.
  destruct st as [sel d]. unfold findEventNoun_body, scan_body, distanceTo, offsetIn, spanOf.
  simpl. reflexivity.
Qed.

Lemma fold_left_ext {A B : Type} (f g : B -> A -> B) (l : list A) :
  (forall b a, f b a = g b a) -> forall b, fold_left f l b = fold_left g l b.
Proof.
  intros H. induction l as [|x l IH]; intros b; simpl; [reflexivity|].
  rewrite H. apply IH.
Qed.

(** What [findEventNoun] returns, in full. *)
Lemma findEventNoun_spec (text : string) (eventNouns : list Detail.t) (anchor : Z) :
  (findEventNoun text eventNouns anchor = Span.mk "" (-1) "" /\
   forall y, In y eventNouns -> 1000 <= distanceTo text anchor y) \/
  (exists c, firstNearest (distanceTo text anchor) eventNouns c /\
             distanceTo text anchor c < 1000 /\
             findEventNoun text eventNouns anchor = spanOf text c).
Proof.
  unfold findEventNoun, forEach.
  rewrite (fold_left_ext _ _ _ (findEventNoun_body_scan text anchor)).
  destruct (scan_spec (distanceTo text anchor) (fun _ c => spanOf text c)
                      (fun s : Span.t => s) (spanOf text) (fun _ _ => eq_refl)
                      eventNouns (Span.mk "" (-1) "") 1000)
    as [[Heq Hall]|(c & Hc & Hd & Hp & _)].
  - left. rewrite Heq. split; [reflexivity|exact Hall].
  - right. exists c. repeat split; assumption.
Qed.

(** C2 (as amended). Each candidate counts at the first-occurrence
    offset of its text in the lower-cased sentence, [-1] when the text
    does not occur.  If some candidate lies strictly less than 1000
    characters from the date anchor, [findEventNoun] selects the candidate
    with the smallest absolute difference from the anchor, the
    first-encountered candidate winning ties, distances being raw
    character offsets; [process] keeps it as the event noun unless its
    offset is [-1], in which case it goes on as it does without any
    candidate.  If every candidate lies 1000 characters or more from the
    anchor, [findEventNoun] resolves nothing (index [-1]) and [process]
    goes on as it does without any candidate. *)
Theorem findEventNoun_nearest_within_1000 (aux : AuxiliaryStructures)
    (eventNouns : list Detail.t) (anchor : Z) :
  let text := caseInsensitiveText aux in
  ((exists c, In c eventNouns /\ distanceTo text anchor c < 1000) ->
   exists c,
     firstNearest (distanceTo text anchor) eventNouns c /\
     findEventNoun text eventNouns anchor = spanOf text c /\
     process_selectEventNoun aux eventNouns anchor =
       if offsetIn text c =? -1 then process_selectEventNoun aux [] anchor
       else Some (spanOf text c)) /\
  ((forall c, In c eventNouns -> 1000 <= distanceTo text anchor c) ->
   findEventNoun text eventNouns anchor = Span.mk "" (-1) "" /\
   process_selectEventNoun aux eventNouns anchor = process_selectEventNoun aux [] anchor).
Proof.
  cbv zeta. split.
  - intros (c & Hin & Hlt).
    destruct (findEventNoun_spec (caseInsensitiveText aux) eventNouns anchor)
      as [[_ Hall]|(c' & Hc' & _ & Heq)].
    + specialize (Hall _ Hin). lia.
    + exists c'. split; [exact Hc'|]. split; [exact Heq|].
      unfold process_selectEventNoun. cbv zeta. rewrite Heq.
      cbn [spanOf Span.index].
      destruct (offsetIn (caseInsensitiveText aux) c' =? -1); reflexivity.
  - intros Hfar.
    destruct (findEventNoun_spec (caseInsensitiveText aux) eventNouns anchor)
      as [[Heq _]|(c' & Hc' & Hlt & _)].
    + split; [exact Heq|].
      unfold process_selectEventNoun. cbv zeta. rewrite Heq. reflexivity.
    + apply firstNearest_In in Hc'. specialize (Hfar _ Hc'). lia.
Qed.

(* ================================================================== *)
(** * The intentional-verb fallback *)
(* ================================================================== *)

Lemma findIntentionalVerb_body_scan (text : string) (anchor : Z)
    (st : IntentionalVerb.t * Z) (v : Detail.t) :
  findIntentionalVerb_body text anchor st v =
  scan_body (distanceTo text anchor)
            (fun s c => IntentionalVerb.mk (Detail.value c) (offsetIn text c)
                                           (Detail.type c) (IntentionalVerb.noun s))
            st v.
Proof.
  destruct st as [sel d]. reflexivity.
Qed.

Lemma arrayIndexOfFrom_verb (ts : Tokens.t) :
  forall i, 0 <= i ->
    (find isVerb ts = None /\ arrayIndexOfFrom (Tokens.out_pos ts) "VERB" i = -1) \/
    (exists k t, arrayIndexOfFrom (Tokens.out_pos ts) "VERB" i = i + Z.of_nat k /\
                 nth_error ts k = Some t /\ find isVerb ts = Some t).
Proof.
  induction ts as [|t ts IH]; intros i Hi; simpl.
  - left. split; reflexivity.
  - unfold isVerb at 1 3. destruct (String.eqb (Token.pos t) "VERB") eqn:E.
    + right. exists O, t. simpl. repeat split; auto. lia.
    + destruct (IH (i + 1)) as [[Hn Hr]|(k & t' & Hr & Hnth & Hf)]; [lia| |].
      * left. split; assumption.
      * right. exists (S k), t'. simpl. repeat split; auto. lia.
Qed.

(** [tokenValue[pos.indexOf("VERB")]] is the first verb of the sentence. *)
Lemma firstVerb_lookup (ts : Tokens.t) :
  nthZ (Tokens.out ts) (arrayIndexOf (Tokens.out_pos ts) "VERB") = firstVerbOfSentence ts.
Proof.
  unfold arrayIndexOf, firstVerbOfSentence.
  destruct (@arrayIndexOfFrom_verb ts 0) as [[Hn Hr]|(k & t & Hr & Hnth & Hf)]; [lia| |].
  - rewrite Hr, Hn. reflexivity.
  - rewrite Hr, Hf. unfold nthZ. simpl.
    destruct (Z.ltb_spec (Z.of_nat k) 0) as [Hlt|_]; [lia|].
    rewrite Nat2Z.id. unfold Tokens.out. rewrite nth_error_map, Hnth. reflexivity.
Qed.

(** What [findIntentionalVerb] returns, in full. *)
Lemma findIntentionalVerb_spec (customEntities : list Detail.t) (tokens : Tokens.t)
    (text : string) (anchor : Z) :
  let verbs := intentionalVerbsOf customEntities in
  (IntentionalVerb.index (findIntentionalVerb customEntities tokens text anchor) = -1 /\
   forall y, In y verbs -> 1000 <= distanceTo text anchor y) \/
  (exists c, firstNearest (distanceTo text anchor) verbs c /\
             distanceTo text anchor c < 1000 /\
             findIntentionalVerb customEntities tokens text anchor =
             IntentionalVerb.mk (Detail.value c) (offsetIn text c) (Detail.type c)
                                (nounPhrase (firstVerbOfSentence tokens) (Detail.value c))).
Proof.
  intros verbs. unfold findIntentionalVerb. fold (intentionalVerbsOf customEntities). fold verbs.
  destruct verbs as [|v verbs'] eqn:Ev.
  - left. simpl. split; [reflexivity|]. intros y [].
  - rewrite <- Ev. replace (List.length verbs =? 0)%nat with false
      by (rewrite Ev; reflexivity).
    unfold forEach.
    rewrite (fold_left_ext _ _ _ (findIntentionalVerb_body_scan text anchor)).
    rewrite firstVerb_lookup.
    destruct (scan_spec (distanceTo text anchor)
                (fun s c => IntentionalVerb.mk (Detail.value c) (offsetIn text c)
                                               (Detail.type c) (IntentionalVerb.noun s))
                (fun s => (IntentionalVerb.value s, IntentionalVerb.index s,
                           IntentionalVerb.type s))
                (fun c => (Detail.value c, offsetIn text c, Detail.type c))
                (fun _ _ => eq_refl)
                verbs (IntentionalVerb.mk "" (-1) "" "") 1000)
      as [[Heq Hall]|(c & Hc & Hd & Hp & _)].
    + left. rewrite Heq. simpl. split; [reflexivity|exact Hall].
    + right. exists c. split; [exact Hc|]. split; [exact Hd|].
      injection Hp as Hv Hi Ht. rewrite Hv, Hi, Ht. reflexivity.
Qed.

(* ================================================================== *)
(** * The life cycle *)
(* ================================================================== *)

Section LifeCycleFacts.
Context {files : PatternFiles}.

Lemma injectPath_ready (this : NlpController) (p : string) :
  _ready (injectPath this p) = _ready this.
Proof. reflexivity. Qed.

(** As long as no [init()] has completed, the controller is as ready
    as it was. *)
Lemma setup_not_completed (ops : list Setup) :
  forall this, snd (setup this ops) = false ->
               _ready (fst (setup this ops)) = _ready this.
Proof.
  induction ops as [|op ops IH]; intros this H; simpl in *; [reflexivity|].
  destruct op as [p|]; simpl in *.
  - destruct (setup (injectPath this p) ops) as [final completed] eqn:E.
    simpl in *. subst completed.
    specialize (IH (injectPath this p)). rewrite E in IH. simpl in IH.
    now rewrite IH.
  - destruct (init this) as [this'|m].
    + destruct (setup this' ops) as [final completed]. simpl in H. discriminate.
    + now apply IH.
Qed.
End LifeCycleFacts.

(* ================================================================== *)
(** * [process]: readiness and the identity protocol *)
(* ================================================================== *)

Section ProcessFacts.
Context {tagger : Tagger} {parser : SmartDateParser}
        {controller : EventController} {misc : MiscLib}.

Lemma process_not_ready (this : NlpController) (s : Sentence) (w : World) :
  _ready this = false -> runProcess this s w = (RNull, mkSt w s []).
Proof.
  intros H. unfold runProcess, process. rewrite H. reflexivity.
Qed.

Lemma process_already_processed (this : NlpController) (s : Sentence) (w : World) :
  _ready this = true -> alreadyProcessed s w = true ->
  runProcess this s w = (RNull, mkSt (snd (syntacticCheck s w)) s [CallSyntacticCheck s]).
Proof.
  unfold alreadyProcessed. intros Hr Hp.
  unfold runProcess, process, bind, callSyntacticCheck. rewrite Hr. simpl.
  destruct (syntacticCheck s w) as [m w']. simpl in *. rewrite Hp. reflexivity.
Qed.
End ProcessFacts.

Section ProcessClaims.
Context {tagger : Tagger} {parser : SmartDateParser}
        {controller : EventController} {misc : MiscLib}.

(** One case analysis on the next thing [process] inspects. *)
Ltac break_match :=
  match goal with
  | |- context [match ?x with _ => _ end] =>
      lazymatch x with
      | context [match _ with _ => _ end] => fail
      | _ => destruct x eqn:?
      end
  end.

Ltac unfold_process :=
  unfold outcome, calls, runProcess, process;
  unfold bind, callSyntacticCheck, callSemanticCheck, callCreateNewEvent,
    getAuxiliaryStructures, parseDates, bind, getSentence, setSentence, log,
    pure, returns, liftExn;
  simpl.

Lemma selectEventNoun_no_candidates (aux : AuxiliaryStructures) (anchor : Z) :
  intentionalVerbsOf (mainCustomEntities aux) = [] ->
  process_selectEventNoun aux [] anchor = None.
Proof.
  intros Hv. unfold process_selectEventNoun, findEventNoun, forEach. simpl.
  unfold findIntentionalVerb. fold (intentionalVerbsOf (mainCustomEntities aux)).
  rewrite Hv. reflexivity.
Qed.

(** Without event-noun candidates the event noun comes from the
    intentional verb. *)
Lemma selectEventNoun_fallback (aux : AuxiliaryStructures) (anchor : Z) :
  process_selectEventNoun aux [] anchor =
  let v := findIntentionalVerb (mainCustomEntities aux) (aux_tokens aux)
                               (caseInsensitiveText aux) anchor in
  if IntentionalVerb.index v =? -1 then None
  else Some (Span.mk (IntentionalVerb.noun v)
                     (indexOf (caseInsensitiveText aux) (IntentionalVerb.noun v))
                     "eventNoun").
Proof. reflexivity. Qed.

(** Without a date span, [process] returns [null]. *)
Lemma process_no_date (this : NlpController) (s : Sentence) (w : World) :
  filterDates (mainCustomEntities (auxOf this s)) = [] ->
  outcome this s w = RNull.
Proof.
  unfold auxOf. simpl. intros Hd. unfold_process.
  destruct (_ready this); simpl; [|reflexivity].
  destruct (syntacticCheck s w) as [m w']. destruct (isProcessed m); [reflexivity|].
  cbn [sentence]. rewrite Hd. reflexivity.
Qed.

(** Without an event noun and without an intentional verb, [process]
    returns [null]. *)
Lemma process_no_anchor (this : NlpController) (s : Sentence) (w : World) :
  filterEventNoun (mainCustomEntities (auxOf this s)) = [] ->
  intentionalVerbsOf (mainCustomEntities (auxOf this s)) = [] ->
  outcome this s w = RNull.
Proof.
  intros Hn Hv. unfold_process.
  destruct (_ready this); simpl; [|reflexivity].
  destruct (syntacticCheck s w) as [m w']. destruct (isProcessed m); [reflexivity|].
  cbn [sentence]. fold (auxOf this s).
  unfold auxOf in Hn. simpl in Hn. rewrite Hn.
  destruct (nthZ _ 0); [|reflexivity].
  rewrite selectEventNoun_no_candidates by exact Hv. reflexivity.
Qed.

(** When the parser is asked and yields nothing, [process] ends on its
    bare [return;]. *)
Lemma process_no_range (this : NlpController) (s : Sentence) (w : World)
    (phrase : string) :
  In (CallParse phrase) (calls this s w) -> getDates (parse phrase) = None ->
  outcome this s w = RUndefined.
Proof.
  unfold_process. intros Hin Hnone.
  repeat (break_match; simpl in *; try tauto; try discriminate).
  all: repeat match goal with H : _ \/ _ |- _ => destruct H end;
    try tauto; try discriminate.
  all: match goal with H : CallParse _ = CallParse _ |- _ => injection H as <- end;
    congruence.
Qed.

(** C8 (as amended). In the NoEvidence cases [process] hands back a
    negative result: [null] when the sentence has no date-category
    tagged span, [null] when it has neither an event-noun candidate nor
    an intentional-verb candidate, and [undefined] (the bare [return;])
    when the date parser is asked and yields no usable range. *)
Theorem process_no_evidence (why : NoEvidence) (this : NlpController) (s : Sentence)
    (w : World) :
  noEvidence why this s w -> outcome this s w = negativeResult why.
Proof.
  destruct why; simpl.
  - apply process_no_date.
  - intros [Hn Hv]. now apply process_no_anchor.
  - intros (phrase & Hin & Hnone). now apply process_no_range with phrase.
Qed.

(** C1. When the syntactic check finds an event that is already
    processed, [process] returns [null] at once: the sentence is left as
    it was, the only call made is that check (none at all on a controller
    that is not ready), and no event is created. Hence a second call on
    the same sentence, for which the check again finds a processed event,
    returns [null] as well and creates no event either. *)
Theorem process_idempotent_when_processed (this : NlpController) (s : Sentence)
    (w : World) :
  alreadyProcessed s w = true ->
  let first := runProcess this s w in
  fst first = RNull /\
  sentence (snd first) = s /\
  trace (snd first) = (if _ready this then [CallSyntacticCheck s] else []) /\
  createsNoEvent (trace (snd first)) /\
  (alreadyProcessed s (world (snd first)) = true ->
   let second := runProcess this s (world (snd first)) in
   fst second = RNull /\
   sentence (snd second) = s /\
   trace (snd second) = (if _ready this then [CallSyntacticCheck s] else []) /\
   createsNoEvent (trace (snd second))).
Proof.
  assert (Hcall : forall w0, alreadyProcessed s w0 = true ->
            fst (runProcess this s w0) = RNull /\
            sentence (snd (runProcess this s w0)) = s /\
            trace (snd (runProcess this s w0)) =
              (if _ready this then [CallSyntacticCheck s] else []) /\
            createsNoEvent (trace (snd (runProcess this s w0)))).
  { intros w0 Hp. destruct (_ready this) eqn:Hr.
    - rewrite (process_already_processed this s w0 Hr Hp). simpl.
      repeat split. intros x [H|[]]. discriminate.
    - rewrite (process_not_ready this s w0 Hr). simpl.
      repeat split. intros x []. }
  intros Hp first. destruct (Hcall w Hp) as (H1 & H2 & H3 & H4).
  split; [exact H1|]. split; [exact H2|]. split; [exact H3|]. split; [exact H4|].
  intros Hp2. exact (Hcall _ Hp2).
Qed.
(** C6 (as amended). For a sentence with no event-noun candidate: if
    there is no intentional-verb candidate either, [process] returns
    [null]; and if some intentional-verb match lies strictly less than
    1000 characters from the date anchor, the fallback picks the match
    nearest to the anchor (the first-encountered one on a tie) and derives
    the event-noun phrase "<verb> <last word of the matched phrase>",
    where <verb> is the first token of the whole sentence that is tagged
    VERB; that phrase becomes the event noun, unless the text of the
    match does not occur in the sentence (offset -1), which ends the
    resolution without an event noun. *)
Theorem intentionalVerb_fallback (this : NlpController) (s : Sentence) (w : World) :
  let aux := auxOf this s in
  let text := caseInsensitiveText aux in
  let verbs := intentionalVerbsOf (mainCustomEntities aux) in
  filterEventNoun (mainCustomEntities aux) = [] ->
  (verbs = [] -> outcome this s w = RNull) /\
  (forall anchor,
      (exists v, In v verbs /\ distanceTo text anchor v < 1000) ->
      exists c,
        firstNearest (distanceTo text anchor) verbs c /\
        let noun := nounPhrase (firstVerbOfSentence (aux_tokens aux)) (Detail.value c) in
        findIntentionalVerb (mainCustomEntities aux) (aux_tokens aux) text anchor =
          IntentionalVerb.mk (Detail.value c) (offsetIn text c) (Detail.type c) noun /\
        process_selectEventNoun aux [] anchor =
          if offsetIn text c =? -1 then None
          else Some (Span.mk noun (indexOf text noun) "eventNoun")).
Proof.
  intros aux text verbs Hn. split.
  - intros Hv. now apply process_no_anchor.
  - intros anchor (v & Hin & Hlt).
    destruct (findIntentionalVerb_spec (mainCustomEntities aux) (aux_tokens aux)
                text anchor) as [[_ Hall]|(c & Hc & _ & Heq)].
    + specialize (Hall _ Hin). lia.
    + exists c. split; [exact Hc|]. split; [exact Heq|].
      rewrite selectEventNoun_fallback. fold text. rewrite Heq. reflexivity.
Qed.
End ProcessClaims.

Section ReadinessClaim.
Context {tagger : Tagger} {parser : SmartDateParser}
        {controller : EventController} {misc : MiscLib} {files : PatternFiles}.

(** C9. On a controller on which no [init()] has completed, whatever
    calls of [injectPath] and failed calls of [init] were made on it
    since its construction, [process] returns [null] and does nothing
    else: no tagger is asked, no collaborator is called, and the
    sentence and the store of events are left as they were. *)
Theorem process_before_init (ops : list Setup) (s : Sentence) (w : World) :
  snd (setup constructor ops) = false ->
  runProcess (fst (setup constructor ops)) s w = (RNull, mkSt w s []).
Proof.
  intros H. apply process_not_ready.
  now rewrite (setup_not_completed ops constructor H).
Qed.
End ReadinessClaim.

(* ================================================================== *)
(** * The adjacency walk *)
(* ================================================================== *)

Lemma nthZ_map {A B : Type} (f : A -> B) (l : list A) (i : Z) :
  nthZ (map f l) i = option_map f (nthZ l i).
Proof.
  unfold nthZ. destruct (i <? 0); [reflexivity|]. apply nth_error_map.
Qed.

Lemma nthZ_of_nat {A : Type} (l : list A) (n : nat) :
  nthZ l (Z.of_nat n) = nth_error l n.
Proof.
  unfold nthZ. destruct (Z.ltb_spec (Z.of_nat n) 0) as [H|_]; [lia|].
  now rewrite Nat2Z.id.
Qed.

Lemma nthZ_negative {A : Type} (l : list A) (i : Z) : i < 0 -> nthZ l i = None.
Proof.
  intros H. unfold nthZ. destruct (Z.ltb_spec i 0) as [_|H']; [reflexivity|lia].
Qed.

(** [indexOf] on an array answers [-1] or a valid index. *)
Lemma arrayIndexOfFrom_range (l : list string) (x : string) :
  forall i, 0 <= i ->
            arrayIndexOfFrom l x i = -1 \/
            i <= arrayIndexOfFrom l x i < i + Z.of_nat (List.length l).
Proof.
  induction l as [|y l IH]; intros i Hi; simpl.
  - now left.
  - destruct (String.eqb y x).
    + right. lia.
    + destruct (IH (i + 1)) as [H|H]; [lia|now left|right; lia].
Qed.

Lemma arrayIndexOf_range (l : list string) (x : string) :
  0 < arrayIndexOf l x -> (Z.to_nat (arrayIndexOf l x) < List.length l)%nat.
Proof.
  unfold arrayIndexOf. intros H.
  destruct (@arrayIndexOfFrom_range l x 0) as [E|E]; lia.
Qed.

(** The tokens that the walk meets, by index and as a list. *)
Lemma adjacent_lookup (tokens : Tokens.t) (k : nat) (backward : bool) (j : nat) :
  (k < List.length tokens)%nat ->
  nthZ tokens (Z.of_nat k + (if backward then -1 else 1) +
               (if backward then - Z.of_nat j else Z.of_nat j)) =
  nth_error (adjacentTokens tokens k backward) j.
Proof.
  intros Hk. unfold adjacentTokens. destruct backward.
  - rewrite nth_error_rev, length_firstn, Nat.min_l by lia.
    destruct (Nat.ltb_spec j k) as [Hj|Hj].
    + replace (Z.of_nat k + -1 + - Z.of_nat j) with (Z.of_nat (k - S j)) by lia.
      rewrite nthZ_of_nat, nth_error_firstn.
      destruct (Nat.ltb_spec (k - S j) k) as [_|H]; [reflexivity|lia].
    + apply nthZ_negative. lia.
  - rewrite nth_error_skipn.
    replace (Z.of_nat k + 1 + Z.of_nat j) with (Z.of_nat (S k + j)) by lia.
    apply nthZ_of_nat.
Qed.

Lemma adjacent_length (tokens : Tokens.t) (k : nat) (backward : bool) :
  (k < List.length tokens)%nat ->
  (List.length (adjacentTokens tokens k backward) < List.length tokens)%nat.
Proof.
  intros Hk. unfold adjacentTokens. destruct backward.
  - rewrite length_rev, length_firstn. lia.
  - rewrite length_skipn. lia.
Qed.

Section Walk.
Variable tokens : Tokens.t.
Variable selectedProperName : option ProperName.t.
Variables eventNounTokenIndex eventNounIndex selectedDateIndex : Z.
Variable backward : bool.

(** The loop over indices is the loop over the tokens ahead, given fuel
    for each of them and one more. *)
Lemma adjWalk_walkList (fuel : nat) :
  forall (ahead : list Token.t) (adjOffset cumulativeIndex : Z) (selected : list Span.t),
    (forall j, nthZ tokens (eventNounTokenIndex + adjOffset +
                            (if backward then - Z.of_nat j else Z.of_nat j)) =
               nth_error ahead j) ->
    (List.length ahead < fuel)%nat ->
    adjWalk fuel (Tokens.out tokens) (Tokens.out_pos tokens) selectedProperName
            eventNounTokenIndex eventNounIndex selectedDateIndex backward
            adjOffset cumulativeIndex selected =
    walkList selectedProperName eventNounIndex selectedDateIndex backward
             ahead cumulativeIndex selected.
Proof.
  induction fuel as [|fuel IH]; intros ahead adjOffset cumulativeIndex selected Hat Hlen;
    [lia|].
  assert (H0 : nthZ tokens (eventNounTokenIndex + adjOffset) = nth_error ahead 0).
  { rewrite <- (Hat O). f_equal. destruct backward; simpl; lia. }
  cbn [adjWalk]. unfold Tokens.out, Tokens.out_pos. rewrite !nthZ_map, H0.
  destruct ahead as [|t rest]; [reflexivity|].
  cbn [nth_error option_map walkList]. unfold hasWalkTag.
  destruct (isWalkTag (Some (Token.pos t))); [|reflexivity].
  destruct (isNameWord selectedProperName (Token.value t)); [reflexivity|].
  match goal with |- (if ?c then _ else _) = _ => destruct c end; [reflexivity|].
  cbn [show]. apply IH; [|simpl in Hlen; lia].
  intros j. specialize (Hat (S j)). cbn [nth_error] in Hat. rewrite <- Hat.
  f_equal. destruct backward; lia.
Qed.

(** The loop over the tokens ahead collects the run of walk tags, and
    gives everything up when one of its words is discarded. *)
Lemma walkList_collected (ahead : list Token.t) :
  forall (cumulativeIndex : Z) (selected : list Span.t),
    walkList selectedProperName eventNounIndex selectedDateIndex backward
             ahead cumulativeIndex selected =
    let collected :=
      computedSpans eventNounIndex backward cumulativeIndex (takeWhile hasWalkTag ahead) in
    if discards selectedProperName selectedDateIndex collected then WalkReturnNull
    else WalkEnd (selected ++ collected).
Proof.
  induction ahead as [|t rest IH]; intros cumulativeIndex selected; cbn [walkList takeWhile].
  - cbn. now rewrite app_nil_r.
  - destruct (hasWalkTag t); [|cbn; now rewrite app_nil_r].
    cbn [computedSpans]. cbv zeta. unfold discards. cbn [existsb Span.value Span.index].
    destruct (isNameWord selectedProperName (Token.value t)); [reflexivity|].
    match goal with |- (if ?c then _ else _) = _ => destruct c end; [reflexivity|].
    rewrite IH. cbv zeta. unfold discards. cbn [orb].
    match goal with |- (if ?c then _ else _) = _ => destruct c end; [reflexivity|].
    now rewrite <- app_assoc.
Qed.
End Walk.

(** Popping from the end is dropping the trailing words. *)
Lemma popTrailing_snoc (x : list Span.t) (a : Span.t) :
  popTrailing (x ++ [a]) =
  match popTrailing x with
  | [] => if isAdpOrPron (Span.type a) then [] else [a]
  | y => y ++ [a]
  end.
Proof.
  induction x as [|b x IH]; simpl.
  - destruct (isAdpOrPron (Span.type a)); reflexivity.
  - destruct (isAdpOrPron (Span.type b)); [exact IH|reflexivity].
Qed.

Lemma stripTrailing_dropTrailing (l : list Span.t) : stripTrailing l = dropTrailing l.
Proof.
  unfold stripTrailing. rewrite <- (rev_involutive (dropTrailing l)). f_equal.
  induction l as [|a r IH]; [reflexivity|].
  cbn [rev dropTrailing]. rewrite popTrailing_snoc, IH.
  destruct (dropTrailing r) as [|b r'].
  - simpl. destruct (isAdpOrPron (Span.type a)); reflexivity.
  - cbn [rev]. destruct (rev r' ++ [b]) eqn:E; [|reflexivity].
    destruct (rev r'); discriminate.
Qed.






(** More fuel than the length of [pos] changes nothing: the loop of
    [findAdjAttributes] ends within the fuel it is given. *)
Lemma adjWalk_fuel (tokens : Tokens.t) (name : option ProperName.t)
    (k : nat) (eventNounIndex selectedDateIndex : Z) (backward : bool) (extra : nat) :
  (k < List.length tokens)%nat ->
  adjWalk (List.length (Tokens.out_pos tokens) + extra) (Tokens.out tokens)
          (Tokens.out_pos tokens) name (Z.of_nat k) eventNounIndex selectedDateIndex
          backward (if backward then -1 else 1) 0 [] =
  adjWalk (List.length (Tokens.out_pos tokens)) (Tokens.out tokens)
          (Tokens.out_pos tokens) name (Z.of_nat k) eventNounIndex selectedDateIndex
          backward (if backward then -1 else 1) 0 [].
Proof.
  intros Hk. unfold Tokens.out_pos at 1 3. rewrite length_map.
  pose proof (adjacent_length tokens backward Hk) as Hlen.
  rewrite !(@adjWalk_walkList tokens name (Z.of_nat k) eventNounIndex selectedDateIndex
              backward _ (adjacentTokens tokens k backward)); try lia; try reflexivity.
  all: intros j; now apply adjacent_lookup.
Qed.


Lemma append_empty_r (s : string) : s +++ "" = s.
Proof.
  induction s as [|c s IH]; [reflexivity|]. cbn [String.append]. now rewrite IH.
Qed.

Lemma arrayIndexOfFrom_absent (l : list string) (x : string) :
  ~ In x l -> forall i, arrayIndexOfFrom l x i = -1.
Proof.
  induction l as [|y l IH]; intros Hx i; [reflexivity|]. simpl.
  destruct (String.eqb_spec y x) as [E|_].
  - elim Hx. now left.
  - apply IH. intros H. apply Hx. now right.
Qed.

(** [stringTokens.indexOf(value) <= 0] when the value is the first token
    or is no token at all. *)
Lemma arrayIndexOf_first_or_absent (l : list string) (x : string) :
  nthZ l 0 = Some x \/ ~ In x l -> arrayIndexOf l x <= 0.
Proof.
  unfold arrayIndexOf. intros [H|H].
  - destruct l as [|y l]; [discriminate|]. cbn in H. injection H as ->.
    simpl. rewrite String.eqb_refl. lia.
  - rewrite arrayIndexOfFrom_absent by exact H. lia.
Qed.

(** C10. When the value of the event noun is the first token, or is not
    among the tokens, neither walk returns attributes, the forward one
    included, and the title built from them is the bare event noun,
    followed by the rendered person when there is one. *)
Theorem findAdjAttributes_first_token (tokens : Tokens.t) (pos : list string)
    (selectedEventNoun : Span.t) (selectedProperName : option ProperName.t)
    (eventNounIndex selectedDateIndex : Z) :
  nthZ (Tokens.out tokens) 0 = Some (Span.value selectedEventNoun) \/
  ~ In (Span.value selectedEventNoun) (Tokens.out tokens) ->
  let backwardsAdjAttributes :=
    findAdjAttributes tokens pos selectedEventNoun selectedProperName
                      eventNounIndex selectedDateIndex true in
  let forwardAdjAttributes :=
    findAdjAttributes tokens pos selectedEventNoun selectedProperName
                      eventNounIndex selectedDateIndex false in
  backwardsAdjAttributes = Ok None /\
  forwardAdjAttributes = Ok None /\
  getEventTitle None None selectedEventNoun selectedProperName =
    Span.value selectedEventNoun +++
    match selectedProperName with
    | Some p => " " +++ ProperName.parsedValue p
    | None => ""
    end.
Proof.
  intros H. apply arrayIndexOf_first_or_absent in H.
  unfold findAdjAttributes. cbv zeta.
  destruct (Z.leb_spec (arrayIndexOf (Tokens.out tokens) (Span.value selectedEventNoun)) 0)
    as [_|H']; [|lia].
  repeat split. unfold getEventTitle. cbn [String.append].
  destruct selectedProperName as [p|]; [reflexivity|].
  now rewrite append_empty_r.
Qed.

(* ================================================================== *)
(** * Person-name resolution *)
(* ================================================================== *)

Section PersonFacts.
Context {misc : MiscLib}.
Variable text : string.
Variable selectedEventNoun : Span.t.
Variable a : option string.

Let dist := nameDistance text selectedEventNoun.
Let upd := fun (s : ProperName.t) (c : Detail.t) =>
  ProperName.mk (nameOf c) (nameOffset text c) (Detail.type c) (ProperName.parsedValue s).
Let flagOf := match a with Some _ => true | None => false end.

(** One candidate whose preposition is [a], when every candidate before
    it had the same: the callback does not raise, rejects a lower-case
    first letter, and otherwise keeps the candidate if it is nearer. *)
Lemma findProperName_body_uniform (st : NameScan) (d : Detail.t) :
  adpositionOf d = a ->
  (a = None -> hasAdp st = false) ->
  findProperName_body text selectedEventNoun st d =
  Ok (let kept :=
        if survives text d
        then scan_body dist upd (selectedProperName st, properNameDistance st) d
        else (selectedProperName st, properNameDistance st) in
      mkNameScan (fst kept) (snd kept) flagOf a).
Proof.
  intros Ha Hflag. unfold findProperName_body, survives, firstLetter, scan_body.
  cbv zeta. fold (adpositionOf d). unfold upd, dist, nameDistance, nameOffset, nameOf.
  rewrite Ha. cbn [fst snd]. subst flagOf.
  destruct a as [x|].
  - destruct (isLowerCase _); [reflexivity|]. cbn [negb].
    destruct (_ <? _); reflexivity.
  - rewrite (Hflag eq_refl).
    destruct (isLowerCase _); [reflexivity|]. cbn [negb].
    destruct (_ <? _); reflexivity.
Qed.

(** The whole scan, under the same condition. *)
Lemma forEachExn_uniform (properNames : list Detail.t) :
  forall st,
    uniformAdposition a properNames ->
    (a = None -> hasAdp st = false) ->
    exists st',
      forEachExn properNames (findProperName_body text selectedEventNoun) st = Ok st' /\
      (selectedProperName st', properNameDistance st') =
        fold_left (scan_body dist upd) (filter (survives text) properNames)
                  (selectedProperName st, properNameDistance st) /\
      (properNames <> [] -> hasAdp st' = flagOf /\ adp st' = a).
Proof.
  induction properNames as [|d l IH]; intros st Hall Hflag.
  - exists st. split; [reflexivity|]. split; [reflexivity|].
    intros H. now elim H.
  - pose proof (Forall_inv Hall) as Hd. pose proof (Forall_inv_tail Hall) as Hl.
    cbv beta in Hd.
    cbn [forEachExn]. rewrite (findProperName_body_uniform st d Hd Hflag). cbv zeta.
    match goal with |- context [forEachExn l _ ?s] => set (st1 := s) end.
    destruct (IH st1 Hl) as (st' & Hrun & Hsel & Hadp).
    { intros Ha. unfold st1, flagOf. cbn. now rewrite Ha. }
    exists st'. split; [exact Hrun|]. split.
    + rewrite Hsel. unfold st1. cbn [selectedProperName properNameDistance filter].
      destruct (survives text d); cbn [fold_left]; now rewrite <- surjective_pairing.
    + intros _. destruct l as [|d' l'].
      * cbn in Hrun. injection Hrun as <-. unfold st1. now cbn.
      * apply Hadp. discriminate.
Qed.
End PersonFacts.

Section PersonClaim.
Context {misc : MiscLib}.

(** C5 (as amended). When all proper-name candidates carry the same
    leading preposition, or none carries one: a candidate is rejected
    when its first letter in the case-sensitive text, after the
    preposition if there is one, is lower-case; if no surviving
    candidate lies strictly less than 1000 characters from the event
    noun (in particular if none survives) the person is [null]; otherwise
    the surviving candidate nearest to the event noun is chosen, the
    first-encountered one on a tie, and rendered "<adposition>
    <Capitalized name>" with a preposition and "with <Capitalized name>"
    without one, unless its text does not occur in the sentence
    (offset -1), which gives [null] as well. *)
Theorem findProperName_uniform (text : string) (properNames : list Detail.t)
    (selectedEventNoun : Span.t) (a : option string) :
  uniformAdposition a properNames ->
  let survivors := filter (survives text) properNames in
  ((forall c, In c survivors -> 1000 <= nameDistance text selectedEventNoun c) ->
   findProperName text properNames selectedEventNoun = Ok None) /\
  ((exists c, In c survivors /\ nameDistance text selectedEventNoun c < 1000) ->
   exists c,
     firstNearest (nameDistance text selectedEventNoun) survivors c /\
     findProperName text properNames selectedEventNoun =
       Ok (if nameOffset text c =? -1 then None else Some (personOf text c))).
Proof.
  intros Hall survivors.
  destruct (forEachExn_uniform text selectedEventNoun
              (mkNameScan (ProperName.mk "" (-1) "" "") 1000 false None) Hall)
    as (st' & Hrun & Hsel & Hadp); [reflexivity|].
  cbn [selectedProperName properNameDistance] in Hsel. fold survivors in Hsel.
  pose proof (scan_spec (nameDistance text selectedEventNoun)
                (fun (s : ProperName.t) (c : Detail.t) =>
                   ProperName.mk (nameOf c) (nameOffset text c) (Detail.type c)
                                 (ProperName.parsedValue s))
                (fun s => (ProperName.value s, ProperName.index s, ProperName.type s))
                (fun c => (nameOf c, nameOffset text c, Detail.type c))
                (fun _ _ => eq_refl)
                survivors (ProperName.mk "" (-1) "" "") 1000) as Hscan.
  rewrite <- Hsel in Hscan. cbn [fst snd] in Hscan.
  unfold findProperName. rewrite Hrun.
  destruct Hscan as [[Heq Hfar]|(c & Hc & Hd & Hp & _)].
  - injection Heq as Hs _. rewrite Hs. cbn [ProperName.index].
    split; [reflexivity|].
    intros (c & Hin & Hlt). specialize (Hfar _ Hin). lia.
  - pose proof (firstNearest_In Hc) as Hin.
    split.
    + intros Hfar. specialize (Hfar _ Hin). lia.
    + intros _. exists c. split; [exact Hc|].
      injection Hp as Hv Hi Ht. rewrite Hv, Hi, Ht.
      destruct (nameOffset text c =? -1); [reflexivity|].
      apply filter_In in Hin. destruct Hin as [Hin _].
      destruct Hadp as [Hflag Hadp]; [intros E; now rewrite E in Hin|].
      rewrite Hflag, Hadp. unfold personOf, rendered.
      pose proof (proj1 (Forall_forall _ _) Hall c Hin) as Hac. cbv beta in Hac.
      rewrite Hac. destruct a; reflexivity.
Qed.
End PersonClaim.

(* ================================================================== *)
(** * Date cleanup *)
(* ================================================================== *)

Lemma filter_filter_and {A : Type} (p q : A -> bool) (l : list A) :
  filter p (filter q l) = filter (fun x => q x && p x) l.
Proof.
  induction l as [|x l IH]; [reflexivity|]. simpl.
  destruct (q x); simpl; [destruct (p x)|]; now rewrite IH.
Qed.

Lemma filter_swap {A : Type} (p q : A -> bool) (l : list A) :
  filter p (filter q l) = filter q (filter p l).
Proof.
  rewrite !filter_filter_and. apply filter_ext. intros x. apply andb_comm.
Qed.

(** A filter that lets everything of a kind through keeps that kind whole. *)
Lemma filter_kept_kind (p keep : Detail.t -> bool) (l : list Detail.t) :
  (forall d, p d = true -> keep d = true) ->
  filter p (filter keep l) = filter p l.
Proof.
  intros H. rewrite filter_filter_and. apply filter_ext. intros d.
  destruct (p d) eqn:E; [now rewrite (H d E)|apply andb_false_r].
Qed.

(** Among fragments with distinct texts, only [d0] has the text of [d0]. *)
Lemma filter_same_value (p : Detail.t -> bool) (l : list Detail.t) (d0 : Detail.t) :
  NoDup (map Detail.value l) -> In d0 l -> p d0 = true ->
  filter (fun d => p d && String.eqb (Detail.value d) (Detail.value d0)) l = [d0].
Proof.
  intros Hnd Hin Hp. induction l as [|x l IH]; [destruct Hin|].
  simpl in Hnd. apply NoDup_cons_iff in Hnd. destruct Hnd as [Hx Hnd]. simpl.
  destruct Hin as [->|Hin].
  - rewrite Hp, String.eqb_refl. simpl. f_equal.
    clear IH Hnd. induction l as [|y l IH]; [reflexivity|]. simpl.
    destruct (String.eqb_spec (Detail.value y) (Detail.value d0)) as [E|_].
    + elim Hx. left. exact E.
    + rewrite andb_false_r. apply IH. intros H. apply Hx. now right.
  - destruct (String.eqb_spec (Detail.value x) (Detail.value d0)) as [E|_].
    + elim Hx. rewrite E. now apply in_map.
    + rewrite andb_false_r. now apply IH.
Qed.

(** A filter that, within a kind, keeps the text of [d0] only, leaves
    [d0] alone of that kind. *)
Lemma filter_kept_first (p keep : Detail.t -> bool) (l : list Detail.t) (d0 : Detail.t) :
  NoDup (map Detail.value l) -> In d0 l -> p d0 = true ->
  (forall d, p d = true -> keep d = String.eqb (Detail.value d) (Detail.value d0)) ->
  filter p (filter keep l) = [d0].
Proof.
  intros Hnd Hin Hp H. rewrite filter_filter_and.
  rewrite <- (@filter_same_value p l d0 Hnd Hin Hp). apply filter_ext. intros d.
  destruct (p d) eqn:E; [rewrite (H d E); apply andb_true_r|apply andb_false_r].
Qed.

Lemma dateComponent_not_time (d : Detail.t) : isDateComponent d = true -> isTime d = false.
Proof.
  destruct d as [v ty].
  unfold isDateComponent, isTime, contains, arrayIndexOf, dateComponentPatterns, timePatterns.
  cbn [Detail.type arrayIndexOfFrom].
  destruct (String.eqb_spec "date" ty) as [<-|_]; [reflexivity|].
  destruct (String.eqb_spec "ordinalDate" ty) as [<-|_]; [reflexivity|].
  destruct (String.eqb_spec "ordinalDateReverse" ty) as [<-|_]; [reflexivity|].
  intros H. vm_compute in H. discriminate.
Qed.

Lemma time_not_dateComponent (d : Detail.t) : isTime d = true -> isDateComponent d = false.
Proof.
  intros H. destruct (isDateComponent d) eqn:E; [|reflexivity].
  rewrite (dateComponent_not_time d E) in H. discriminate.
Qed.

(** Away from the defect of C4: when no two fragments have the same
    text, the cleanup keeps the first date component and the first time,
    and nothing else of either kind. *)
Lemma cleanJunkDates_distinct_values (dates : list Detail.t) :
  NoDup (map Detail.value dates) ->
  filter isDateComponent (cleanJunkDates dates) = firstn 1 (filter isDateComponent dates) /\
  filter isTime (cleanJunkDates dates) = firstn 1 (filter isTime dates).
Proof.
  intros Hnd. unfold cleanJunkDates. cbv zeta.
  change (fun d : Detail.t => contains dateComponentPatterns (Detail.type d))
    with isDateComponent.
  change (fun t : Detail.t => contains timePatterns (Detail.type t)) with isTime.
  destruct (filter isDateComponent dates) as [|d0 [|d1 dc]] eqn:Edc;
    destruct (filter isTime dates) as [|t0 [|t1 tm]] eqn:Etm;
    try (rewrite Edc, Etm; split; reflexivity).
  all: try (assert (Hd0 : In d0 dates /\ isDateComponent d0 = true)
             by (apply filter_In; rewrite Edc; now left)).
  all: try (assert (Ht0 : In t0 dates /\ isTime t0 = true)
             by (apply filter_In; rewrite Etm; now left)).
  - (* several times *)
    split.
    + rewrite filter_kept_kind; [now rewrite Edc|]. intros d H.
      change (isDateComponent d || String.eqb (Detail.value d) (Detail.value t0) = true).
      now rewrite H.
    + apply filter_kept_first; try tauto. intros d H.
      change (isDateComponent d || String.eqb (Detail.value d) (Detail.value t0) =
              String.eqb (Detail.value d) (Detail.value t0)).
      now rewrite (time_not_dateComponent d H).
  - (* one date component, several times *)
    split.
    + rewrite filter_kept_kind; [now rewrite Edc|]. intros d H.
      change (isDateComponent d || String.eqb (Detail.value d) (Detail.value t0) = true).
      now rewrite H.
    + apply filter_kept_first; try tauto. intros d H.
      change (isDateComponent d || String.eqb (Detail.value d) (Detail.value t0) =
              String.eqb (Detail.value d) (Detail.value t0)).
      now rewrite (time_not_dateComponent d H).
  - (* several date components, no time *)
    split.
    + apply filter_kept_first; try tauto. intros d H.
      change (isTime d || String.eqb (Detail.value d) (Detail.value d0) =
              String.eqb (Detail.value d) (Detail.value d0)).
      now rewrite (dateComponent_not_time d H).
    + rewrite filter_kept_kind; [now rewrite Etm|]. intros d H.
      change (isTime d || String.eqb (Detail.value d) (Detail.value d0) = true).
      now rewrite H.
  - (* several date components, one time *)
    split.
    + apply filter_kept_first; try tauto. intros d H.
      change (isTime d || String.eqb (Detail.value d) (Detail.value d0) =
              String.eqb (Detail.value d) (Detail.value d0)).
      now rewrite (dateComponent_not_time d H).
    + rewrite filter_kept_kind; [now rewrite Etm|]. intros d H.
      change (isTime d || String.eqb (Detail.value d) (Detail.value d0) = true).
      now rewrite H.
  - (* several of each *)
    split.
    + rewrite filter_kept_kind.
      * apply filter_kept_first; try tauto. intros d H.
        change (isTime d || String.eqb (Detail.value d) (Detail.value d0) =
                String.eqb (Detail.value d) (Detail.value d0)).
        now rewrite (dateComponent_not_time d H).
      * intros d H.
        change (isDateComponent d || String.eqb (Detail.value d) (Detail.value t0) = true).
        now rewrite H.
    + match goal with
      | |- context [filter ?p (filter ?q dates)] => rewrite (filter_swap p q dates)
      end.
      rewrite filter_kept_kind.
      * apply filter_kept_first; try tauto. intros d H.
        change (isDateComponent d || String.eqb (Detail.value d) (Detail.value t0) =
                String.eqb (Detail.value d) (Detail.value t0)).
        now rewrite (time_not_dateComponent d H).
      * intros d H.
        change (isTime d || String.eqb (Detail.value d) (Detail.value d0) = true).
        now rewrite H.
Qed.

(* ================================================================== *)
(** * The properties on concrete sentences *)
(* ================================================================== *)

Import Sample.

(** C1, on the running example once its event is processed. *)
Lemma process_idempotent_witness :
  let s := sentenceOf boardText in
  let w := [mkKnown boardText "board meeting with John" (mkEvent 0 true)] in
  let first := runProcess ready s w in
  fst first = RNull /\
  sentence (snd first) = s /\
  trace (snd first) = (if _ready ready then [CallSyntacticCheck s] else []) /\
  createsNoEvent (trace (snd first)) /\
  (alreadyProcessed s (world (snd first)) = true ->
   let second := runProcess ready s (world (snd first)) in
   fst second = RNull /\
   sentence (snd second) = s /\
   trace (snd second) = (if _ready ready then [CallSyntacticCheck s] else []) /\
   createsNoEvent (trace (snd second))).
Proof.
  exact (@process_idempotent_when_processed tagger parser controller misc ready
           (sentenceOf boardText)
           [mkKnown boardText "board meeting with John" (mkEvent 0 true)] eq_refl).
Defined.

(** C2 as stated fails: the only candidate lies 1010 characters from the
    anchor, and no event noun is resolved. *)
Lemma findEventNoun_far_candidate :
  let text := toLowerCase farText in
  let eventNouns := [ent "lunch" "eventNoun"] in
  let anchor := indexOf text "tomorrow" in
  eventNouns <> [] /\
  ~ ResolvesNearest text eventNouns anchor (findEventNoun text eventNouns anchor).
Proof.
  cbv zeta. split; [discriminate|].
  intros (c & Hc & Hr). apply firstNearest_In in Hc. destruct Hc as [<-|[]].
  vm_compute in Hr. discriminate.
Qed.

(** C2 (as amended): "dinner" and "lunch" both lie 6 characters from the
    anchor "today" and "dinner" comes first in the list, "brunch" lies
    farther; a far candidate resolves nothing; and a nearest candidate
    whose text does not occur in the sentence is dropped by [process]. *)
Lemma findEventNoun_nearest_witness :
  let text := "brunch or lunch today dinner" in
  let eventNouns := [ent "brunch" "eventNoun"; ent "dinner" "eventNoun";
                     ent "lunch" "eventNoun"] in
  let aux := mkAux text (eventNouns ++ [ent "today" "date"]) [] [] [] in
  let far := mkAux (toLowerCase farText) [ent "lunch" "eventNoun"] [] [] [] in
  let absent := mkAux "today lunch" [ent "xyz" "eventNoun"; ent "lunch" "eventNoun"] [] [] [] in
  ((exists c,
      firstNearest (distanceTo text 16) eventNouns c /\
      findEventNoun text eventNouns 16 = spanOf text c /\
      process_selectEventNoun aux eventNouns 16 =
        if offsetIn text c =? -1 then process_selectEventNoun aux [] 16
        else Some (spanOf text c)) /\
   findEventNoun text eventNouns 16 = Span.mk "dinner" 22 "eventNoun" /\
   process_selectEventNoun aux eventNouns 16 = Some (Span.mk "dinner" 22 "eventNoun")) /\
  (findEventNoun (toLowerCase farText) [ent "lunch" "eventNoun"] 1010 = Span.mk "" (-1) "" /\
   process_selectEventNoun far [ent "lunch" "eventNoun"] 1010 =
     process_selectEventNoun far [] 1010) /\
  ((exists c,
      firstNearest (distanceTo "today lunch" 0) [ent "xyz" "eventNoun"; ent "lunch" "eventNoun"] c /\
      findEventNoun "today lunch" [ent "xyz" "eventNoun"; ent "lunch" "eventNoun"] 0 =
        spanOf "today lunch" c /\
      process_selectEventNoun absent [ent "xyz" "eventNoun"; ent "lunch" "eventNoun"] 0 =
        if offsetIn "today lunch" c =? -1 then process_selectEventNoun absent [] 0
        else Some (spanOf "today lunch" c)) /\
   findEventNoun "today lunch" [ent "xyz" "eventNoun"; ent "lunch" "eventNoun"] 0 =
     Span.mk "xyz" (-1) "eventNoun" /\
   process_selectEventNoun absent [ent "xyz" "eventNoun"; ent "lunch" "eventNoun"] 0 = None).
Proof.
  cbv zeta. split; [|split].
  - split; [|split; reflexivity].
    apply (proj1 (@findEventNoun_nearest_within_1000
                    (mkAux "brunch or lunch today dinner"
                       ([ent "brunch" "eventNoun"; ent "dinner" "eventNoun";
                         ent "lunch" "eventNoun"] ++ [ent "today" "date"]) [] [] [])
                    [ent "brunch" "eventNoun"; ent "dinner" "eventNoun";
                     ent "lunch" "eventNoun"] 16)).
    exists (ent "dinner" "eventNoun"). split; [right; now left|].
    vm_compute. reflexivity.
  - apply (proj2 (@findEventNoun_nearest_within_1000
                    (mkAux (toLowerCase farText) [ent "lunch" "eventNoun"] [] [] [])
                    [ent "lunch" "eventNoun"] 1010)).
    intros c [<-|[]]. vm_compute. discriminate.
  - split; [|split; reflexivity].
    apply (proj1 (@findEventNoun_nearest_within_1000
                    (mkAux "today lunch"
                       [ent "xyz" "eventNoun"; ent "lunch" "eventNoun"] [] [] [])
                    [ent "xyz" "eventNoun"; ent "lunch" "eventNoun"] 0)).
    exists (ent "xyz" "eventNoun"). split; [now left|].
    vm_compute. reflexivity.
Defined.


(** The walks of the running example, evaluated. *)
Example walkAsStated_board :
  walkAsStated (tokens boardMain) 1 None 6 24 true =
    Some [Span.mk "board" 0 "NOUN"] /\
  walkAsStated (tokens boardMain) 1 None 6 24 false = None.
Proof. split; reflexivity. Qed.

(** C4 fails on the code: two date fragments with the same text both
    survive the cleanup. *)
Theorem cleanJunkDates_keeps_duplicates :
  let dates := [ent "on monday" "date"; ent "on monday" "date"] in
  cleanJunkDates dates = dates /\ atMostOneOfEach (cleanJunkDates dates) = false.
Proof. split; reflexivity. Qed.

(** C5 as stated fails: the only candidate survives the case filter and
    lies 1005 characters from the event noun; no person is resolved. *)
Lemma findProperName_far_candidate :
  let properNames := [ent "john" "properName"] in
  let selectedEventNoun := Span.mk "lunch" 0 "eventNoun" in
  ~ ResolvesPerson farText properNames selectedEventNoun
                   (findProperName farText properNames selectedEventNoun).
Proof.
  cbv zeta. unfold ResolvesPerson. cbv zeta.
  assert (E : filter (survives farText) [ent "john" "properName"] =
              [ent "john" "properName"]) by (vm_compute; reflexivity).
  rewrite E. intros (c & Hc & Hr). apply firstNearest_In in Hc.
  destruct Hc as [<-|[]]. vm_compute in Hr. discriminate.
Qed.

(** C5 (as amended), on the running example. *)
Lemma findProperName_uniform_witness :
  let properNames := [ent "with john" "properName"] in
  let selectedEventNoun := Span.mk "meeting" 6 "eventNoun" in
  let survivors := filter (survives boardText) properNames in
  ((forall c, In c survivors -> 1000 <= nameDistance boardText selectedEventNoun c) ->
   findProperName boardText properNames selectedEventNoun = Ok None) /\
  ((exists c, In c survivors /\ nameDistance boardText selectedEventNoun c < 1000) ->
   exists c,
     firstNearest (nameDistance boardText selectedEventNoun) survivors c /\
     findProperName boardText properNames selectedEventNoun =
       Ok (if nameOffset boardText c =? -1 then None else Some (personOf boardText c))).
Proof.
  apply (@findProperName_uniform _ boardText [ent "with john" "properName"]
           (Span.mk "meeting" 6 "eventNoun") (Some "with")).
  constructor; [vm_compute; reflexivity|constructor].
Defined.

(** The person of the running example, evaluated. *)
Example findProperName_board :
  findProperName boardText [ent "with john" "properName"] (Span.mk "meeting" 6 "eventNoun") =
  Ok (Some (ProperName.mk "john" 14 "properName" "with John")).
Proof. reflexivity. Qed.

(** The lower-case homograph of a name is rejected. *)
Example findProperName_amber :
  findProperName "lunch amber on friday" [ent "amber" "properName"]
                 (Span.mk "lunch" 0 "eventNoun") = Ok None.
Proof. reflexivity. Qed.

(** The preposition of a later candidate is rendered before the name of
    the chosen one. *)
Example findProperName_sticky_adposition :
  findProperName "Lunch John friday for Mary"
                 [ent "john" "properName"; ent "for mary" "properName"]
                 (Span.mk "lunch" 0 "eventNoun") =
  Ok (Some (ProperName.mk "john" 6 "properName" "for John")).
Proof. reflexivity. Qed.

(** A candidate without a preposition after one with a preposition makes
    [findProperName] raise. *)
Example findProperName_raises :
  findProperName "Lunch with John friday Mary"
                 [ent "with john" "properName"; ent "mary" "properName"]
                 (Span.mk "lunch" 0 "eventNoun") =
  Throw "TypeError: adp is undefined".
Proof. reflexivity. Qed.

(** C6 as stated fails: the match is "schedule a call", whose verb is
    "schedule", and the derived phrase is "want call". *)
Lemma findIntentionalVerb_other_verb :
  let text := toLowerCase callText in
  let anchor := indexOf text "tomorrow" in
  filterEventNoun (customEntities callMain) = [] /\
  findIntentionalVerb (customEntities callMain) (tokens callMain) text anchor =
    IntentionalVerb.mk "schedule a call" 10 "intentionalVerb" "want call" /\
  ~ FallbackAsStated (tokens callMain) text (intentionalVerbsOf (customEntities callMain))
                     anchor
                     (findIntentionalVerb (customEntities callMain) (tokens callMain)
                                          text anchor).
Proof.
  cbv zeta. split; [reflexivity|]. split; [reflexivity|].
  intros (c & Hc & _ & _ & Hn). apply firstNearest_In in Hc.
  destruct Hc as [<-|[]]. vm_compute in Hn. discriminate.
Qed.

(** C6 (as amended), on the same sentence. *)
Lemma intentionalVerb_fallback_witness :
  let aux := auxOf ready (sentenceOf callText) in
  let text := caseInsensitiveText aux in
  let verbs := intentionalVerbsOf (mainCustomEntities aux) in
  (verbs = [] -> outcome ready (sentenceOf callText) [] = RNull) /\
  (forall anchor,
      (exists v, In v verbs /\ distanceTo text anchor v < 1000) ->
      exists c,
        firstNearest (distanceTo text anchor) verbs c /\
        let noun := nounPhrase (firstVerbOfSentence (aux_tokens aux)) (Detail.value c) in
        findIntentionalVerb (mainCustomEntities aux) (aux_tokens aux) text anchor =
          IntentionalVerb.mk (Detail.value c) (offsetIn text c) (Detail.type c) noun /\
        process_selectEventNoun aux [] anchor =
          if offsetIn text c =? -1 then None
          else Some (Span.mk noun (indexOf text noun) "eventNoun")).
Proof.
  apply (@intentionalVerb_fallback tagger parser controller misc ready
           (sentenceOf callText) []).
  vm_compute. reflexivity.
Defined.

(** The event noun that the fallback hands to the rest of [process]. *)
Example selectEventNoun_call :
  process_selectEventNoun (auxOf ready (sentenceOf callText)) [] 26 =
  Some (Span.mk "want call" (-1) "eventNoun").
Proof. reflexivity. Qed.

(** C7 fails on the code: the second word before the event noun gets the
    offset 33 in a text of 30 characters. *)
Theorem selection_out_of_bounds :
  let text := toLowerCase annualText in
  strlen text = 30 /\
  outcome ready (sentenceOf annualText) [] =
    RResult [Span.mk "on friday" 0 "date"; Span.mk "board" 17 "NOUN";
             Span.mk "meeting" 23 "eventNoun"; Span.mk "annual" 33 "ADJ"]
            (mkEvent 0 false) /\
  selectionInBounds text (outcome ready (sentenceOf annualText) []) = false.
Proof. cbv zeta. repeat split; vm_compute; reflexivity. Qed.

(** The event noun of the intentional-verb fallback gets the offset -1. *)
Example selection_negative_offset :
  outcome ready (sentenceOf callText) [] =
    RResult [Span.mk "want call" (-1) "eventNoun"; Span.mk "tomorrow" 26 "date"]
            (mkEvent 0 false) /\
  selectionInBounds (toLowerCase callText) (outcome ready (sentenceOf callText) []) = false.
Proof. split; vm_compute; reflexivity. Qed.

(** C8 as stated fails: when the parser finds no range, [process] hands
    back [undefined], not [null]. *)
Lemma process_no_range_is_undefined :
  @noEvidence tagger deafParser controller misc NoRange ready (sentenceOf boardText) [] /\
  @outcome tagger deafParser controller misc ready (sentenceOf boardText) [] <> RNull.
Proof.
  split.
  - exists "on march at 2pm". split; [|reflexivity].
    vm_compute. do 3 right. now left.
  - vm_compute. discriminate.
Qed.

(** C8 (as amended), in each of the three cases. *)
Lemma process_no_evidence_witness :
  outcome ready (sentenceOf noDateText) [] = RNull /\
  outcome ready (sentenceOf bareText) [] = RNull /\
  @outcome tagger deafParser controller misc ready (sentenceOf boardText) [] = RUndefined.
Proof.
  split; [|split].
  - apply (@process_no_evidence tagger parser controller misc NoDate ready
             (sentenceOf noDateText) []).
    vm_compute. reflexivity.
  - apply (@process_no_evidence tagger parser controller misc NoAnchor ready
             (sentenceOf bareText) []).
    split; vm_compute; reflexivity.
  - apply (@process_no_evidence tagger deafParser controller misc NoRange ready
             (sentenceOf boardText) []).
    exists "on march at 2pm". split; [|reflexivity].
    vm_compute. do 3 right. now left.
Defined.

(** C9, on a controller whose [init()] failed for want of pattern files. *)
Lemma process_before_init_witness :
  runProcess (fst (setup constructor [InjectPath "/nowhere"; Init]))
             (sentenceOf boardText) [] =
  (RNull, mkSt [] (sentenceOf boardText) []).
Proof.
  apply (@process_before_init tagger parser controller misc files
           [InjectPath "/nowhere"; Init] (sentenceOf boardText) []).
  vm_compute. reflexivity.
Defined.

(** C10, on a sentence that starts with its event noun: "budget" follows
    "meeting" and is not collected. *)
Lemma findAdjAttributes_first_token_witness :
  let tokens := [tok "meeting" "NOUN"; tok "budget" "NOUN"; tok "tomorrow" "NOUN"] in
  let selectedEventNoun := Span.mk "meeting" 0 "eventNoun" in
  findAdjAttributes tokens (Tokens.out_pos tokens) selectedEventNoun None 0 15 true = Ok None /\
  findAdjAttributes tokens (Tokens.out_pos tokens) selectedEventNoun None 0 15 false = Ok None /\
  getEventTitle None None selectedEventNoun None = "meeting" +++ "".
Proof.
  apply (findAdjAttributes_first_token
           [tok "meeting" "NOUN"; tok "budget" "NOUN"; tok "tomorrow" "NOUN"]
           (Tokens.out_pos [tok "meeting" "NOUN"; tok "budget" "NOUN"; tok "tomorrow" "NOUN"])
           (Span.mk "meeting" 0 "eventNoun") None 0 15).
  left. reflexivity.
Defined.

(** The running example of the specification, end to end. *)
Example process_board :
  outcome ready (sentenceOf boardText) [] =
    RResult [Span.mk "board" 0 "NOUN"; Span.mk "meeting" 6 "eventNoun";
             Span.mk "john" 14 "properName"; Span.mk "on march" 24 "date";
             Span.mk "at 2pm" 37 "exactTime"]
            (mkEvent 0 false) /\
  eventNoun (sentence (snd (runProcess ready (sentenceOf boardText) []))) =
    Some "board meeting with John".
Proof. split; vm_compute; reflexivity. Qed.

(* ================================================================== *)
(** * Further properties: the life cycle *)
(* ================================================================== *)

Section LifeCycleExtras.
Context {files : PatternFiles}.

Lemma init_ready (this this' : NlpController) :
  init this = Ok this' -> _ready this' = true.
Proof.
  unfold init. destruct (loadPatterns this); [|discriminate].
  intros H. injection H as <-. reflexivity.
Qed.

Lemma setup_ready (ops : list Setup) :
  forall this, _ready (fst (setup this ops)) = _ready this || snd (setup this ops).
Proof.
  induction ops as [|op ops IH]; intros this; simpl.
  - now rewrite orb_false_r.
  - destruct op as [p|]; simpl.
    + specialize (IH (injectPath this p)).
      destruct (setup (injectPath this p) ops) as [final completed]. exact IH.
    + destruct (init this) as [this'|m] eqn:E; [|apply IH].
      specialize (IH this'). rewrite (init_ready this E) in IH.
      destruct (setup this' ops) as [final completed]. simpl in *.
      now rewrite IH, orb_true_r.
Qed.

(** X1. Whatever calls of [injectPath] and [init] were made on a freshly
    constructed controller, it is ready exactly when one of the calls of
    [init] has completed: a failed [init] does not make it ready and
    nothing that follows a completed one makes it unready again. *)
Theorem ready_iff_init_completed (ops : list Setup) :
  _ready (fst (setup constructor ops)) = snd (setup constructor ops).
Proof.
  now rewrite setup_ready.
Qed.

Lemma grammar_no_properName (parsedNouns : list string) :
  forallb (fun p => negb (isProperNameRule p)) (grammar parsedNouns) = true.
Proof. reflexivity. Qed.

Lemma init_taggersApart (this this' : NlpController) :
  taggersApart this -> init this = Ok this' -> taggersApart this'.
Proof.
  intros (H1 & H2 & H3 & H4). unfold init, loadPatterns.
  destruct (readPatternFile _) as [nouns|]; [|discriminate].
  destruct (readPatternFile _) as [names|]; [|discriminate].
  intros H. injection H as <-. unfold taggersApart. simpl.
  rewrite !forallb_app, H1, H3, grammar_no_properName. repeat split; reflexivity.
Qed.

Lemma setup_taggersApart (ops : list Setup) :
  forall this, taggersApart this -> taggersApart (fst (setup this ops)).
Proof.
  induction ops as [|op ops IH]; intros this H; simpl; [exact H|].
  destruct op as [p|]; simpl.
  - specialize (IH (injectPath this p) H).
    destruct (setup (injectPath this p) ops). exact IH.
  - destruct (init this) as [this'|m] eqn:E; [|now apply IH].
    specialize (IH this' (init_taggersApart H E)).
    destruct (setup this' ops). exact IH.
Qed.

(** X2. Whatever calls of [injectPath] and [init] were made on a freshly
    constructed controller, the main tagger has learned no rule named
    properName and the secondary tagger has learned no other rule: the two
    grammars never overlap. *)
Theorem taggers_stay_apart (ops : list Setup) :
  taggersApart (fst (setup constructor ops)).
Proof.
  apply setup_taggersApart. repeat split.
Qed.

(** X3. [init] is not idempotent: when a call of [init] has completed, the
    next one completes too (the same files are read again) and pushes the
    eight rules of the grammar, and the proper-name rule, once more, so
    the main tagger then learns each of its rules twice. *)
Theorem init_again_doubles (this first : NlpController) :
  init this = Ok first ->
  exists second parsedNouns parsedProperNames,
    init first = Ok second /\
    _mainNLP first = _customPatterns this ++ grammar parsedNouns /\
    _mainNLP second = _mainNLP first ++ grammar parsedNouns /\
    _secondaryNLP second =
      _secondaryNLP first ++ [mkPattern "properName" parsedProperNames].
Proof.
  unfold init, loadPatterns.
  destruct (readPatternFile (show (_pluginPath this) +++ "/.noun_patterns.txt"))
    as [nouns|] eqn:En; [|discriminate].
  destruct (readPatternFile (show (_pluginPath this) +++ "/.proper_name_patterns.txt"))
    as [names|] eqn:Ep; [|discriminate].
  intros H. injection H as <-. simpl. rewrite En, Ep.
  eexists. exists nouns, names. repeat split.
Qed.
End LifeCycleExtras.

(* ================================================================== *)
(** * Further properties: the selection array *)
(* ================================================================== *)

Lemma insertByIndex_HdRel (y x : Span.t) (l : list Span.t) :
  byIndex y x -> HdRel byIndex y l -> HdRel byIndex y (insertByIndex x l).
Proof.
  intros Hyx Hl. destruct l as [|z l]; simpl.
  - now constructor.
  - destruct (Span.index x <=? Span.index z); constructor; [exact Hyx|].
    now inversion Hl.
Qed.

Lemma insertByIndex_sorted (x : Span.t) (l : list Span.t) :
  Sorted byIndex l -> Sorted byIndex (insertByIndex x l).
Proof.
  induction l as [|y l IH]; intros Hs; simpl.
  - repeat constructor.
  - apply Sorted_inv in Hs. destruct Hs as [Hs Hd].
    destruct (Z.leb_spec (Span.index x) (Span.index y)) as [Hle|Hgt].
    + constructor; [now constructor|]. now constructor.
    + constructor; [now apply IH|].
      apply insertByIndex_HdRel; [unfold byIndex; lia|exact Hd].
Qed.

Lemma sortByIndex_sorted (l : list Span.t) : Sorted byIndex (sortByIndex l).
Proof.
  induction l as [|x l IH]; simpl; [constructor|]. now apply insertByIndex_sorted.
Qed.

Lemma insertByIndex_perm (x : Span.t) (l : list Span.t) :
  Permutation (insertByIndex x l) (x :: l).
Proof.
  induction l as [|y l IH]; simpl; [reflexivity|].
  destruct (Span.index x <=? Span.index y); [reflexivity|].
  rewrite IH. apply perm_swap.
Qed.

Lemma sortByIndex_perm (l : list Span.t) : Permutation (sortByIndex l) l.
Proof.
  induction l as [|x l IH]; simpl; [reflexivity|].
  rewrite insertByIndex_perm. now constructor.
Qed.

(** The [forEach] over the dates pushes one span per date. *)
Lemma push_dates (text : string) (dates : list Detail.t) :
  forall selection,
    forEach dates
            (fun selection date =>
               let dateIndex := indexOf text (Detail.value date) in
               selection ++ [Span.mk (Detail.value date) dateIndex (Detail.type date)])
            selection =
    selection ++ map (spanOf text) dates.
Proof.
  unfold forEach. induction dates as [|d dates IH]; intros selection; simpl.
  - now rewrite app_nil_r.
  - rewrite IH, <- app_assoc. reflexivity.
Qed.

Lemma getSelectionArray_gathered (text : string) (dates : list Detail.t)
    (noun : Span.t) (b f : option (list Span.t)) (p : option ProperName.t) :
  getSelectionArray text dates noun b f p = sortByIndex (gathered text dates noun b f p).
Proof.
  unfold getSelectionArray, gathered. rewrite push_dates. cbn [app].
  destruct p; rewrite <- ?app_assoc; reflexivity.
Qed.

(** X4. The array [getSelectionArray] returns is in non-decreasing order
    of index and holds exactly the spans that were pushed: one per date,
    the event noun, the person if there is one, and the attributes of both
    directions; none is lost and none is added by the sort. *)
Theorem getSelectionArray_sorted_permutation (text : string) (dates : list Detail.t)
    (selectedEventNoun : Span.t)
    (backwardsAdjAttributes forwardAdjAttributes : option (list Span.t))
    (selectedProperName : option ProperName.t) :
  let selection :=
    getSelectionArray text dates selectedEventNoun backwardsAdjAttributes
                      forwardAdjAttributes selectedProperName in
  Sorted byIndex selection /\
  Permutation selection
              (gathered text dates selectedEventNoun backwardsAdjAttributes
                        forwardAdjAttributes selectedProperName).
Proof.
  cbv zeta. rewrite getSelectionArray_gathered. split.
  - apply sortByIndex_sorted.
  - apply sortByIndex_perm.
Qed.

Lemma atIndex_insert (i : Z) (x : Span.t) (l : list Span.t) :
  atIndex i (insertByIndex x l) =
  if Span.index x =? i then x :: atIndex i l else atIndex i l.
Proof.
  unfold atIndex. induction l as [|y l IH]; simpl.
  - reflexivity.
  - destruct (Z.leb_spec (Span.index x) (Span.index y)) as [Hle|Hgt]; simpl.
    + reflexivity.
    + rewrite IH.
      destruct (Z.eqb_spec (Span.index y) i) as [Hy|Hy];
        destruct (Z.eqb_spec (Span.index x) i) as [Hx|Hx]; try reflexivity.
      lia.
Qed.

(** X5. Spans that carry the same index come out of [getSelectionArray] in
    the order they were pushed: dates first, then the event noun, the
    person, the backward and the forward attributes. *)
Theorem getSelectionArray_stable (text : string) (dates : list Detail.t)
    (selectedEventNoun : Span.t)
    (backwardsAdjAttributes forwardAdjAttributes : option (list Span.t))
    (selectedProperName : option ProperName.t) (i : Z) :
  atIndex i (getSelectionArray text dates selectedEventNoun backwardsAdjAttributes
                               forwardAdjAttributes selectedProperName) =
  atIndex i (gathered text dates selectedEventNoun backwardsAdjAttributes
                      forwardAdjAttributes selectedProperName).
Proof.
  rewrite getSelectionArray_gathered.
  induction (gathered text dates selectedEventNoun backwardsAdjAttributes
                      forwardAdjAttributes selectedProperName) as [|x l IH];
    [reflexivity|].
  cbn [sortByIndex fold_right]. fold (sortByIndex l). rewrite atIndex_insert, IH.
  unfold atIndex. simpl. reflexivity.
Qed.

(* ================================================================== *)
(** * Further properties: the date cleanup *)
(* ================================================================== *)

Lemma cleanJunkDates_gates (dates : list Detail.t) :
  cleanJunkDates dates = filter (timeGate dates) (filter (dateGate dates) dates).
Proof.
  unfold cleanJunkDates, timeGate, dateGate. cbv zeta.
  change (fun d : Detail.t => contains dateComponentPatterns (Detail.type d))
    with isDateComponent.
  change (fun t : Detail.t => contains timePatterns (Detail.type t)) with isTime.
  destruct (filter isDateComponent dates) as [|d0 [|d1 dc]];
    destruct (filter isTime dates) as [|t0 [|t1 tm]];
    rewrite ?filter_true; reflexivity.
Qed.

Lemma dateGate_first (dates : list Detail.t) (d0 : Detail.t) :
  hd_error (filter isDateComponent dates) = Some d0 -> dateGate dates d0 = true.
Proof.
  unfold dateGate. destruct (filter isDateComponent dates) as [|a [|b l]]; try reflexivity.
  intros H. injection H as ->. now rewrite String.eqb_refl, orb_true_r.
Qed.

Lemma timeGate_first (dates : list Detail.t) (t0 : Detail.t) :
  hd_error (filter isTime dates) = Some t0 -> timeGate dates t0 = true.
Proof.
  unfold timeGate. destruct (filter isTime dates) as [|a [|b l]]; try reflexivity.
  intros H. injection H as ->. now rewrite String.eqb_refl, orb_true_r.
Qed.

Lemma dateGate_time (dates : list Detail.t) (d : Detail.t) :
  isTime d = true -> dateGate dates d = true.
Proof.
  intros H. unfold dateGate. rewrite H.
  destruct (filter isDateComponent dates) as [|a [|b l]]; reflexivity.
Qed.

Lemma timeGate_dateComponent (dates : list Detail.t) (d : Detail.t) :
  isDateComponent d = true -> timeGate dates d = true.
Proof.
  intros H. unfold timeGate. rewrite H.
  destruct (filter isTime dates) as [|a [|b l]]; reflexivity.
Qed.

(** A filter that keeps the first element of a kind keeps it first. *)
Lemma hd_filter_kept {A : Type} (p keep : A -> bool) (l : list A) :
  (forall x, hd_error (filter p l) = Some x -> keep x = true) ->
  hd_error (filter p (filter keep l)) = hd_error (filter p l).
Proof.
  induction l as [|x l IH]; intros H; [reflexivity|]. simpl in *.
  destruct (p x) eqn:Ep.
  - rewrite (H x eq_refl). simpl. now rewrite Ep.
  - destruct (keep x); simpl; rewrite ?Ep; now apply IH.
Qed.

Lemma hd_clean_dateComponent (dates : list Detail.t) :
  hd_error (filter isDateComponent (cleanJunkDates dates)) =
  hd_error (filter isDateComponent dates).
Proof.
  rewrite cleanJunkDates_gates.
  rewrite hd_filter_kept.
  - apply hd_filter_kept. intros x. apply dateGate_first.
  - intros x Hx. apply timeGate_dateComponent.
    assert (Hin : In x (filter isDateComponent (filter (dateGate dates) dates))).
    { destruct (filter isDateComponent (filter (dateGate dates) dates));
        [discriminate|]. injection Hx as ->. now left. }
    apply filter_In in Hin. tauto.
Qed.

Lemma hd_clean_time (dates : list Detail.t) :
  hd_error (filter isTime (cleanJunkDates dates)) = hd_error (filter isTime dates).
Proof.
  rewrite cleanJunkDates_gates.
  assert (E : hd_error (filter isTime (filter (dateGate dates) dates)) =
              hd_error (filter isTime dates)).
  { apply hd_filter_kept. intros x Hx. apply dateGate_time.
    assert (Hin : In x (filter isTime dates)).
    { destruct (filter isTime dates); [discriminate|]. injection Hx as ->. now left. }
    apply filter_In in Hin. tauto. }
  rewrite hd_filter_kept; [exact E|].
  intros x Hx. rewrite E in Hx. now apply timeGate_first.
Qed.

(** X6. Whatever the fragments are, also when several have the same text,
    the first date component of the cleaned list is the first date
    component of the raw list, and the first time is the first time: the
    cleanup never drops or replaces the first-encountered fragment of a
    category. *)
Theorem cleanJunkDates_keeps_first (dates : list Detail.t) :
  hd_error (filter isDateComponent (cleanJunkDates dates)) =
    hd_error (filter isDateComponent dates) /\
  hd_error (filter isTime (cleanJunkDates dates)) = hd_error (filter isTime dates).
Proof.
  split; [apply hd_clean_dateComponent|apply hd_clean_time].
Qed.

Lemma filter_nil_all {A : Type} (p : A -> bool) (l : list A) :
  filter p l = [] -> forall x, In x l -> p x = false.
Proof.
  intros H x Hin. destruct (p x) eqn:E; [|reflexivity].
  assert (Hx : In x (filter p l)) by (apply filter_In; tauto).
  rewrite H in Hx. destruct Hx.
Qed.

Lemma clean_not_nil (dates : list Detail.t) :
  dates <> [] -> cleanJunkDates dates <> [].
Proof.
  intros Hne Hnil.
  pose proof (hd_clean_dateComponent dates) as Hd.
  pose proof (hd_clean_time dates) as Ht.
  rewrite Hnil in Hd, Ht. simpl in Hd, Ht.
  rewrite cleanJunkDates_gates in Hnil.
  unfold dateGate, timeGate in Hnil.
  destruct (filter isDateComponent dates); [|discriminate].
  destruct (filter isTime dates); [|discriminate].
  rewrite !filter_true in Hnil. contradiction.
Qed.

(** X7. The cleanup never empties a list: a date fragment or a time
    fragment of the raw list always survives, and a list with neither is
    left as it is; so the date parser is never handed an empty phrase
    because of the cleanup. *)
Theorem cleanJunkDates_not_empty (dates : list Detail.t) :
  dates <> [] ->
  cleanJunkDates dates <> [] /\
  (filter isDateComponent dates = [] -> filter isTime dates = [] ->
   cleanJunkDates dates = dates).
Proof.
  intros Hne. split; [now apply clean_not_nil|].
  intros Hd Ht. rewrite cleanJunkDates_gates. unfold dateGate, timeGate.
  rewrite Hd, Ht. now rewrite !filter_true.
Qed.

Lemma filter_filter_length {A : Type} (p q : A -> bool) (l : list A) :
  (List.length (filter p (filter q l)) <= List.length (filter p l))%nat.
Proof.
  induction l as [|x l IH]; simpl; [lia|].
  destruct (q x); simpl; destruct (p x); simpl; lia.
Qed.

Lemma clean_dateComponents_length (dates : list Detail.t) :
  (List.length (filter isDateComponent (cleanJunkDates dates)) <=
   List.length (filter isDateComponent dates))%nat.
Proof.
  rewrite cleanJunkDates_gates.
  etransitivity; [apply filter_filter_length|apply filter_filter_length].
Qed.

Lemma clean_times_length (dates : list Detail.t) :
  (List.length (filter isTime (cleanJunkDates dates)) <=
   List.length (filter isTime dates))%nat.
Proof.
  rewrite cleanJunkDates_gates.
  etransitivity; [apply filter_filter_length|apply filter_filter_length].
Qed.

Lemma clean_In_gates (dates : list Detail.t) (x : Detail.t) :
  In x (cleanJunkDates dates) -> dateGate dates x = true /\ timeGate dates x = true.
Proof.
  rewrite cleanJunkDates_gates. intros H.
  apply filter_In in H. destruct H as [H Ht].
  apply filter_In in H. tauto.
Qed.

(** X8. The cleanup is idempotent: cleaning a cleaned list changes
    nothing, also when fragments with the same text have survived. *)
Theorem cleanJunkDates_idempotent (dates : list Detail.t) :
  cleanJunkDates (cleanJunkDates dates) = cleanJunkDates dates.
Proof.
  rewrite (cleanJunkDates_gates (cleanJunkDates dates)).
  assert (Hd : forall x, In x (cleanJunkDates dates) ->
                         dateGate (cleanJunkDates dates) x = true).
  { intros x Hx. apply clean_In_gates in Hx. destruct Hx as [Hx _].
    pose proof (hd_clean_dateComponent dates) as Hh.
    pose proof (clean_dateComponents_length dates) as Hl.
    unfold dateGate in *.
    destruct (filter isDateComponent (cleanJunkDates dates)) as [|a [|b l]];
      try reflexivity.
    destruct (filter isDateComponent dates) as [|a' [|b' l']];
      simpl in Hl; try lia.
    simpl in Hh. injection Hh as ->. exact Hx. }
  assert (Ht : forall x, In x (cleanJunkDates dates) ->
                         timeGate (cleanJunkDates dates) x = true).
  { intros x Hx. apply clean_In_gates in Hx. destruct Hx as [_ Hx].
    pose proof (hd_clean_time dates) as Hh.
    pose proof (clean_times_length dates) as Hl.
    unfold timeGate in *.
    destruct (filter isTime (cleanJunkDates dates)) as [|a [|b l]];
      try reflexivity.
    destruct (filter isTime dates) as [|a' [|b' l']];
      simpl in Hl; try lia.
    simpl in Hh. injection Hh as ->. exact Hx. }
  rewrite (forallb_filter_id (dateGate (cleanJunkDates dates))).
  - apply forallb_filter_id. apply forallb_forall. exact Ht.
  - apply forallb_forall. exact Hd.
Qed.

(** X9. When no two fragments have the same text, the cleaned list holds
    at most one date component and at most one time: the first of each
    kind in the raw list, and nothing else of that kind. *)
Theorem cleanJunkDates_one_of_each (dates : list Detail.t) :
  NoDup (map Detail.value dates) ->
  atMostOneOfEach (cleanJunkDates dates) = true /\
  filter isDateComponent (cleanJunkDates dates) = firstn 1 (filter isDateComponent dates) /\
  filter isTime (cleanJunkDates dates) = firstn 1 (filter isTime dates).
Proof.
  intros Hnd. destruct (cleanJunkDates_distinct_values dates Hnd) as [Hd Ht].
  split; [|split; assumption].
  unfold atMostOneOfEach. rewrite Hd, Ht.
  destruct (filter isDateComponent dates); destruct (filter isTime dates); reflexivity.
Qed.

(* ================================================================== *)
(** * Further properties: [process] *)
(* ================================================================== *)

Section ProcessExtras.
Context {tagger : Tagger} {parser : SmartDateParser}
        {controller : EventController} {misc : MiscLib}.

(** One case analysis on the next thing [process] inspects, in the goal
    or in a hypothesis. *)
Ltac case_step :=
  match goal with
  | |- context [match ?x with _ => _ end] =>
      lazymatch x with
      | context [match _ with _ => _ end] => fail
      | _ => destruct x eqn:?
      end
  | H : context [match ?x with _ => _ end] |- _ =>
      lazymatch x with
      | context [match _ with _ => _ end] => fail
      | _ => destruct x eqn:?
      end
  end.

Ltac run_process :=
  unfold outcome, calls, runProcess, process;
  unfold bind, callSyntacticCheck, callSemanticCheck, callCreateNewEvent,
    getAuxiliaryStructures, parseDates, bind, getSentence, setSentence, log,
    pure, returns, liftExn;
  simpl.

(** What a successful call went through. *)
Lemma process_result_inv (this : NlpController) (s : Sentence) (w : World)
    (sel : list Span.t) (ev : Event) :
  outcome this s w = RResult sel ev ->
  let aux := auxOf this s in
  let dates := filterDates (mainCustomEntities aux) in
  exists firstDate noun name b f,
    nthZ dates 0 = Some firstDate /\
    process_selectEventNoun aux (filterEventNoun (mainCustomEntities aux))
      (indexOf (caseInsensitiveText aux) (Detail.value firstDate)) = Some noun /\
    findProperName (value s) (filterProperNames (secondaryCustomEntities aux)) noun = Ok name /\
    findAdjAttributes (aux_tokens aux) (aux_pos aux) noun name (Span.index noun)
      (indexOf (caseInsensitiveText aux) (Detail.value firstDate)) true = Ok b /\
    findAdjAttributes (aux_tokens aux) (aux_pos aux) noun name (Span.index noun)
      (indexOf (caseInsensitiveText aux) (Detail.value firstDate)) false = Ok f /\
    sel = getSelectionArray (caseInsensitiveText aux) (cleanJunkDates dates) noun b f name.
Proof.
  unfold auxOf. cbv zeta.
  cbn [mainCustomEntities secondaryCustomEntities caseInsensitiveText aux_tokens aux_pos].
  run_process. intros H.
  repeat (case_step; simpl in *; try discriminate).
  all: match goal with H : RResult _ _ = RResult _ _ |- _ => injection H as <- <- end.
  all: do 5 eexists; repeat split; eassumption || reflexivity.
Qed.

Lemma clean_incl (dates : list Detail.t) (x : Detail.t) :
  In x (cleanJunkDates dates) -> In x dates.
Proof.
  rewrite cleanJunkDates_gates. intros H.
  apply filter_In in H. destruct H as [H _]. apply filter_In in H. tauto.
Qed.

Lemma nthZ_0_nonempty {A : Type} (l : list A) (x : A) : nthZ l 0 = Some x -> l <> [].
Proof.
  intros H E. subst l. discriminate.
Qed.

(** X10. The selection of every successful result is in non-decreasing
    order of index, and it holds the span of at least one date fragment of
    the sentence, with the first-occurrence offset of its text in the
    lower-cased sentence as index. *)
Theorem process_selection_sorted (this : NlpController) (s : Sentence) (w : World)
    (selection : list Span.t) (event : Event) :
  outcome this s w = RResult selection event ->
  Sorted byIndex selection /\
  exists date,
    In date (filterDates (mainCustomEntities (auxOf this s))) /\
    In (spanOf (toLowerCase (value s)) date) selection.
Proof.
  intros H. apply process_result_inv in H. cbv zeta in H.
  destruct H as (firstDate & noun & name & b & f & Hd & _ & _ & _ & _ & ->).
  split.
  - rewrite getSelectionArray_gathered. apply sortByIndex_sorted.
  - apply nthZ_0_nonempty in Hd.
    apply clean_not_nil in Hd.
    destruct (cleanJunkDates (filterDates (mainCustomEntities (auxOf this s))))
      as [|date rest] eqn:E; [contradiction|].
    exists date. split.
    + apply clean_incl. rewrite E. now left.
    + rewrite getSelectionArray_gathered.
      apply (Permutation_in _ (Permutation_sym (sortByIndex_perm _))).
      unfold gathered. apply in_or_app. left. now left.
Qed.

(** X11. [process] never changes the text of the sentence it is given,
    and it changes the sentence at all only to annotate it for the
    semantic check: the final sentence is the one it received, or the one
    that was handed to [semanticCheck]. *)
Theorem process_sentence_text (this : NlpController) (s : Sentence) (w : World) :
  let final := sentence (snd (runProcess this s w)) in
  value final = value s /\
  (final = s \/ In (CallSemanticCheck final) (calls this s w)).
Proof.
  run_process.
  repeat (case_step; simpl in *; try discriminate); auto 10.
Qed.

(** X12. When the syntactic check finds an event that is not processed
    yet, [process] reuses it: it calls neither [semanticCheck] nor
    [createNewEvent], it leaves the sentence and the store of events as
    the check left them, and a result, if there is one, carries that
    event. *)
Theorem process_reuses_match (this : NlpController) (s : Sentence) (w w1 : World)
    (matched : Event) :
  syntacticCheck s w = (Some matched, w1) ->
  processed matched = false ->
  (forall x, ~ In (CallSemanticCheck x) (calls this s w)) /\
  createsNoEvent (calls this s w) /\
  sentence (snd (runProcess this s w)) = s /\
  (_ready this = true -> world (snd (runProcess this s w)) = w1) /\
  (forall selection event,
      outcome this s w = RResult selection event -> event = matched).
Proof.
  intros Hs Hp. unfold createsNoEvent. run_process.
  destruct (_ready this); simpl.
  - rewrite Hs. simpl. rewrite Hp.
    repeat (case_step; simpl in *; try discriminate).
    all: repeat split; try reflexivity; try discriminate;
      try (intros x Hx; repeat (destruct Hx as [Hx|Hx]; try discriminate); exact Hx);
      try (intros ? ? Hx; now injection Hx).
  - repeat split; try discriminate; intros x [].
Qed.

(** X13. [createNewEvent] is called only when both checks have found
    nothing; it is then the last call, made on the annotated sentence
    right after [semanticCheck], and the event it makes is the one that
    [process] hands back. *)
Theorem process_creates_last (this : NlpController) (s : Sentence) (w : World)
    (x : Sentence) :
  In (CallCreateNewEvent x) (calls this s w) ->
  let w1 := snd (syntacticCheck s w) in
  let w2 := snd (semanticCheck x w1) in
  fst (syntacticCheck s w) = None /\
  fst (semanticCheck x w1) = None /\
  x = sentence (snd (runProcess this s w)) /\
  (exists before,
      calls this s w = before ++ [CallSemanticCheck x; CallCreateNewEvent x]) /\
  (exists selection,
      outcome this s w = RResult selection (fst (createNewEvent x w2))).
Proof.
  run_process. intros H.
  repeat (case_step; simpl in *; try discriminate); try tauto.
  all: repeat match goal with H : _ \/ _ |- _ => destruct H end;
    try tauto; try discriminate.
  all: match goal with
       | H : CallCreateNewEvent _ = CallCreateNewEvent _ |- _ => injection H as <-
       end.
  all: repeat match goal with
              | H : ?f ?a ?b = (_, _) |- _ => rewrite H in *; clear H
              end; simpl in *.
  all: repeat split; try reflexivity; try congruence.
  all: try (eexists; reflexivity).
  all: try (eexists [_; _; _; _]; reflexivity).
  all: match goal with H : createNewEvent _ _ = _ |- _ => rewrite H end;
    eexists; reflexivity.
Qed.

(** X14. An event that [process] hands back without having created it is
    never a processed one, and it is the event found by the syntactic
    check or, failing that, by the semantic check on the annotated
    sentence. *)
Theorem process_result_unprocessed (this : NlpController) (s : Sentence) (w : World)
    (selection : list Span.t) (event : Event) :
  outcome this s w = RResult selection event ->
  createsNoEvent (calls this s w) ->
  processed event = false /\
  (fst (syntacticCheck s w) = Some event \/
   fst (syntacticCheck s w) = None /\
   fst (semanticCheck (sentence (snd (runProcess this s w)))
                      (snd (syntacticCheck s w))) = Some event).
Proof.
  unfold createsNoEvent. run_process. intros H Hc.
  repeat (case_step; simpl in *; try discriminate).
  all: match goal with H : RResult _ _ = RResult _ _ |- _ => injection H as <- <- end.
  all: try solve [exfalso; eapply Hc; repeat (try (left; reflexivity); right)].
  all: repeat match goal with
              | H : semanticCheck _ _ = _ |- _ => rewrite H; clear H
              | H : Some _ = Some _ |- _ => injection H as ->
              end; simpl.
  all: auto.
Qed.

(** X15. The collaborators are called in one fixed order and each at most
    once per call of [process]: the syntactic check, the main tagger and
    the secondary tagger on the lower-cased text, the date parser on the
    cleaned fragments, the semantic check and the creation of an event;
    a call of [process] makes an initial part of that sequence. *)
Theorem process_call_order (this : NlpController) (s : Sentence) (w : World) :
  let text := toLowerCase (value s) in
  let final := sentence (snd (runProcess this s w)) in
  exists rest,
    calls this s w ++ rest =
    [CallSyntacticCheck s; CallMainReadDoc text; CallSecondaryReadDoc text;
     CallParse (timeRelatedString
                  (cleanJunkDates (filterDates (mainCustomEntities (auxOf this s)))));
     CallSemanticCheck final; CallCreateNewEvent final].
Proof.
  unfold auxOf. cbv zeta. cbn [mainCustomEntities]. run_process.
  repeat (case_step; simpl in *; try discriminate).
  all: eexists; reflexivity.
Qed.
End ProcessExtras.

Section TaggerExtras.
Context {tagger : Tagger} {parser : SmartDateParser}
        {controller : EventController} {misc : MiscLib}.

Lemma typeIs_notPurpose (ty : string) (d : Detail.t) :
  ty <> "purpose" -> notPurpose d && typeIs ty d = typeIs ty d.
Proof.
  intros Hty. unfold notPurpose, typeIs.
  destruct (String.eqb_spec (Detail.type d) ty) as [E|_]; [|apply andb_false_r].
  rewrite E. destruct (String.eqb_spec ty "purpose"); [contradiction|reflexivity].
Qed.

Lemma filter_type_notPurpose (ty : string) (l : list Detail.t) :
  ty <> "purpose" -> filter (typeIs ty) (filter notPurpose l) = filter (typeIs ty) l.
Proof.
  intros Hty. rewrite filter_filter_and. apply filter_ext. intros d.
  now apply typeIs_notPurpose.
Qed.

Lemma filterDates_notPurpose (l : list Detail.t) :
  filterDates (filter notPurpose l) = filterDates l.
Proof.
  unfold filterDates. rewrite filter_filter_and. apply filter_ext. intros d.
  rewrite !andb_orb_distrib_r.
  rewrite !typeIs_notPurpose by discriminate. reflexivity.
Qed.

Lemma findIntentionalVerb_notPurpose (l : list Detail.t) (tokens : Tokens.t)
    (text : string) (i : Z) :
  findIntentionalVerb (filter notPurpose l) tokens text i = findIntentionalVerb l tokens text i.
Proof.
  unfold findIntentionalVerb. now rewrite filter_type_notPurpose by discriminate.
Qed.

Lemma selectEventNoun_notPurpose (text : string) (m sec sec' : list Detail.t)
    (tokens : Tokens.t) (pos : list string) (eventNouns : list Detail.t) (i : Z) :
  process_selectEventNoun (mkAux text (filter notPurpose m) sec tokens pos) eventNouns i =
  process_selectEventNoun (mkAux text m sec' tokens pos) eventNouns i.
Proof.
  unfold process_selectEventNoun. simpl. now rewrite findIntentionalVerb_notPurpose.
Qed.

(** X16. The purpose spans are never used: a tagger that reports the same
    documents without them leads [process] to the same outcome, the same
    calls, and the same final sentence and store of events. *)
Theorem process_ignores_purposes (this : NlpController) (s : Sentence) (w : World) :
  @runProcess (withoutPurposes tagger) parser controller misc this s w =
  @runProcess tagger parser controller misc this s w.
Proof.
  unfold runProcess, process.
  unfold bind, callSyntacticCheck, getAuxiliaryStructures, bind, getSentence, log, pure,
    returns.
  simpl.
  destruct (_ready this); simpl; [|reflexivity].
  destruct (syntacticCheck s w) as [m w1]. destruct (isProcessed m); [reflexivity|].
  cbn [sentence world trace].
  rewrite !filterDates_notPurpose.
  unfold filterEventNoun, filterProperNames.
  rewrite !filter_type_notPurpose by discriminate.
  destruct (nthZ _ 0) as [firstDate|]; [|reflexivity].
  rewrite (selectEventNoun_notPurpose _ _ _
             (customEntities (readDoc (_secondaryNLP this) (toLowerCase (value s))))).
  reflexivity.
Qed.
End TaggerExtras.

(* ================================================================== *)
(** * Further properties: the adjacency walk *)
(* ================================================================== *)

Lemma widths_app (l1 l2 : list Span.t) : widths (l1 ++ l2) = widths l1 + widths l2.
Proof.
  unfold widths. induction l1 as [|a l1 IH]; simpl; [reflexivity|]. rewrite IH. lia.
Qed.

Lemma nthZ_In {A : Type} (l : list A) (i : Z) (x : A) : nthZ l i = Some x -> In x l.
Proof.
  unfold nthZ. destruct (i <? 0); [discriminate|]. apply nth_error_In.
Qed.

Lemma isWalkTag_show (tag : option string) :
  isWalkTag tag = true -> isWalkTag (Some (show tag)) = true.
Proof.
  destruct tag; [trivial|discriminate].
Qed.

(** One more attribute at the end of what has been collected. *)
Lemma collectedSoFar_push (stringTokens : list string) (name : option ProperName.t)
    (eni di : Z) (backward : bool) (cum : Z) (selected : list Span.t)
    (adjWord : string) (tag : option string) :
  collectedSoFar stringTokens name eni di backward cum selected ->
  isWalkTag tag = true -> In adjWord stringTokens ->
  isNameWord name adjWord = false ->
  cum + (if backward then eni - (strlen adjWord + 1) else eni + (strlen adjWord + 1)) <> di ->
  let idx := cum + (if backward then eni - (strlen adjWord + 1)
                    else eni + (strlen adjWord + 1)) in
  collectedSoFar stringTokens name eni di backward idx
                 (selected ++ [Span.mk adjWord idx (show tag)]).
Proof.
  intros (Hall & Hnth & Hcum) Htag Hin Hname Hdate idx. repeat split.
  - apply Forall_app. split; [exact Hall|]. constructor; [|constructor].
    unfold idx, isWalkToken. cbn [Span.type Span.value Span.index].
    split; [now apply isWalkTag_show|]. split; [exact Hin|].
    split; [exact Hname|exact Hdate].
  - intros n a Hn. unfold walkIndex.
    destruct (Nat.lt_ge_cases n (List.length selected)) as [Hlt|Hge].
    + rewrite nth_error_app1 in Hn by exact Hlt.
      rewrite firstn_app. replace (S n - List.length selected)%nat with O by lia.
      cbn [firstn]. rewrite app_nil_r. now apply Hnth.
    + rewrite nth_error_app2 in Hn by exact Hge.
      destruct (n - List.length selected)%nat as [|k] eqn:E; simpl in Hn;
        [|destruct k; discriminate].
      injection Hn as <-. assert (n = List.length selected) by lia. subst n.
      rewrite firstn_all2 by (rewrite length_app; simpl; lia).
      rewrite widths_app. cbn [Span.index widths fold_right Span.value].
      unfold idx. rewrite Hcum. destruct backward; lia.
  - rewrite length_app, widths_app. cbn [List.length widths fold_right Span.value].
    unfold idx. rewrite Hcum. destruct backward; lia.
Qed.

(** The loop keeps what it has collected in that shape, whatever the two
    arrays are. *)
Lemma adjWalk_collected (stringTokens pos : list string) (name : option ProperName.t)
    (k eni di : Z) (backward : bool) (fuel : nat) :
  forall adjOffset cum selected final,
    collectedSoFar stringTokens name eni di backward cum selected ->
    adjWalk fuel stringTokens pos name k eni di backward adjOffset cum selected =
      WalkEnd final ->
    exists cum', collectedSoFar stringTokens name eni di backward cum' final.
Proof.
  induction fuel as [|fuel IH]; intros adjOffset cum selected final Hc H; cbn [adjWalk] in H.
  - injection H as <-. now exists cum.
  - destruct (isWalkTag (nthZ pos (k + adjOffset))) eqn:Htag;
      [|injection H as <-; now exists cum].
    destruct (nthZ stringTokens (k + adjOffset)) as [adjWord|] eqn:Hw; [|discriminate].
    destruct (isNameWord name adjWord) eqn:Hname; [discriminate|].
    match type of H with
    | (if ?c then _ else _) = _ => destruct (Z.eqb_spec
        (cum + (if backward then eni - (strlen adjWord + 1)
                else eni + (strlen adjWord + 1))) di) as [|Hd]
    end; [discriminate|].
    eapply IH; [|exact H].
    apply collectedSoFar_push; auto. now apply nthZ_In in Hw.
Qed.

Lemma dropTrailing_prefix (l : list Span.t) : exists rest, l = dropTrailing l ++ rest.
Proof.
  induction l as [|a r (rest & IH)]; [now exists []|]. cbn [dropTrailing].
  destruct (dropTrailing r) as [|b r'] eqn:E.
  - destruct (isAdpOrPron (Span.type a)).
    + now exists (a :: r).
    + exists r. reflexivity.
  - exists rest. simpl in *. now rewrite <- IH.
Qed.

Lemma dropTrailing_last (l : list Span.t) :
  dropTrailing l <> [] ->
  exists front a, dropTrailing l = front ++ [a] /\ isAdpOrPron (Span.type a) = false.
Proof.
  induction l as [|a r IH]; [intros H; now elim H|]. cbn [dropTrailing].
  destruct (dropTrailing r) as [|b r'] eqn:E.
  - destruct (isAdpOrPron (Span.type a)) eqn:Ea; [intros H; now elim H|].
    intros _. now exists [], a.
  - intros _. destruct IH as (front & z & Hz & Htz); [discriminate|].
    exists (a :: front), z. rewrite Hz. split; [reflexivity|exact Htz].
Qed.

Lemma collectedSoFar_nil (stringTokens : list string) (name : option ProperName.t)
    (eni di : Z) (backward : bool) :
  collectedSoFar stringTokens name eni di backward 0 [].
Proof.
  repeat split.
  - constructor.
  - intros [|n] a H; discriminate.
  - destruct backward; reflexivity.
Qed.

(** What a walk that returns attributes has returned. *)
Lemma findAdjAttributes_inv (tokens : Tokens.t) (pos : list string) (noun : Span.t)
    (name : option ProperName.t) (eni di : Z) (backward : bool) (l : list Span.t) :
  findAdjAttributes tokens pos noun name eni di backward = Ok (Some l) ->
  exists cum final rest,
    collectedSoFar (Tokens.out tokens) name eni di backward cum final /\
    final = l ++ rest /\ l = dropTrailing final /\ l <> [].
Proof.
  unfold findAdjAttributes. cbv zeta.
  destruct (_ <=? 0); [discriminate|].
  destruct (adjWalk _ _ _ _ _ _ _ _ _ _ _) as [| |final] eqn:Hw; try discriminate.
  rewrite stripTrailing_dropTrailing.
  destruct (dropTrailing final) as [|a l'] eqn:E; [discriminate|].
  cbn [List.length Nat.eqb]. intros H. injection H as <-.
  destruct (@adjWalk_collected (Tokens.out tokens) pos name _ eni di backward _ _ _ _ _
              (collectedSoFar_nil (Tokens.out tokens) name eni di backward) Hw)
    as (cum & Hc).
  destruct (dropTrailing_prefix final) as (rest & Hrest). rewrite E in Hrest.
  exists cum, final, rest.
  split; [exact Hc|]. split; [exact Hrest|]. split; [now rewrite E|discriminate].
Qed.

(** X17. Whatever the tokens and the tags are, the attributes a walk
    returns are never an empty list; each is a token of the sentence
    tagged NOUN, ADJ, ADP or PRON that is not the name of the person and
    whose index is not the date anchor, and the last one is tagged NOUN or
    ADJ. *)
Theorem findAdjAttributes_attributes (tokens : Tokens.t) (pos : list string)
    (selectedEventNoun : Span.t) (selectedProperName : option ProperName.t)
    (eventNounIndex selectedDateIndex : Z) (backward : bool)
    (attributes : list Span.t) :
  findAdjAttributes tokens pos selectedEventNoun selectedProperName
                    eventNounIndex selectedDateIndex backward = Ok (Some attributes) ->
  Forall (isWalkToken (Tokens.out tokens) selectedProperName selectedDateIndex) attributes /\
  exists front a,
    attributes = front ++ [a] /\
    String.eqb (Span.type a) "NOUN" || String.eqb (Span.type a) "ADJ" = true.
Proof.
  intros H. apply findAdjAttributes_inv in H.
  destruct H as (cum & final & rest & (Hall & _ & _) & Hfinal & Hl & Hne).
  rewrite Hfinal in Hall. apply Forall_app in Hall. destruct Hall as [Hall _].
  split; [exact Hall|].
  rewrite Hl in Hne. destruct (dropTrailing_last final Hne) as (front & a & Ha & Hta).
  rewrite <- Hl in Ha. exists front, a. split; [exact Ha|].
  rewrite Ha in Hall. apply Forall_app in Hall. destruct Hall as [_ Hall].
  apply Forall_inv in Hall. destruct Hall as (Htag & _).
  unfold isWalkTag in Htag. unfold isAdpOrPron in Hta.
  destruct (String.eqb (Span.type a) "NOUN"); [reflexivity|].
  destruct (String.eqb (Span.type a) "ADJ"); [reflexivity|].
  simpl in *. congruence.
Qed.


(* ================================================================== *)
(** * Further properties: person-name resolution *)
(* ================================================================== *)

Section PersonExtras.
Context {misc : MiscLib}.
Variable text : string.
Variable selectedEventNoun : Span.t.

(** The callback raises on a candidate without a preposition once a
    preposition has been met, and only then; otherwise it records whether
    one has been met. *)
Lemma findProperName_body_cases (st : NameScan) (d : Detail.t) :
  (adpositionOf d = None /\ hasAdp st = true /\
   exists m, findProperName_body text selectedEventNoun st d = Throw m) \/
  (exists st',
      findProperName_body text selectedEventNoun st d = Ok st' /\
      hasAdp st' = match adpositionOf d with Some _ => true | None => hasAdp st end /\
      (adpositionOf d = None -> hasAdp st = false)).
Proof.
  unfold findProperName_body. cbv zeta. fold (adpositionOf d).
  destruct (adpositionOf d) as [a|]; [|destruct (hasAdp st) eqn:Eh].
  - right. destruct (isLowerCase _); [|destruct (_ <? _)];
      eexists; repeat split; discriminate.
  - left. repeat split. now eexists.
  - right. destruct (isLowerCase _); [|destruct (_ <? _)];
      eexists; repeat split.
Qed.

Lemma forEachExn_raises (l : list Detail.t) :
  forall st,
    (exists m, forEachExn l (findProperName_body text selectedEventNoun) st = Throw m) <->
    raisesAfter (hasAdp st) l = true.
Proof.
  induction l as [|d l IH]; intros st; cbn [forEachExn raisesAfter].
  - split; [intros [m H]; discriminate|discriminate].
  - destruct (findProperName_body_cases st d)
      as [(Ha & Hs & m & E)|(st' & E & Hs & Hn)]; rewrite E.
    + rewrite Ha, Hs. split; [reflexivity|]. intros _. now exists m.
    + rewrite IH, Hs. destruct (adpositionOf d); [reflexivity|].
      rewrite (Hn eq_refl). reflexivity.
Qed.
End PersonExtras.

Lemma raisesAfter_seen (l : list Detail.t) :
  raisesAfter true l = true <->
  exists l2 d l3, l = l2 ++ d :: l3 /\ adpositionOf d = None.
Proof.
  induction l as [|x l IH]; cbn [raisesAfter].
  - split; [discriminate|]. intros (l2 & d & l3 & H & _). destruct l2; discriminate.
  - destruct (adpositionOf x) as [a|] eqn:Ex.
    + rewrite IH. split.
      * intros (l2 & d & l3 & -> & Hd). now exists (x :: l2), d, l3.
      * intros (l2 & d & l3 & H & Hd). destruct l2 as [|y l2]; simpl in H.
        -- injection H as -> ->. congruence.
        -- injection H as -> ->. now exists l2, d, l3.
    + split; [|reflexivity]. intros _. now exists [], x, l.
Qed.

Lemma raisesAfter_unseen (l : list Detail.t) :
  raisesAfter false l = true <-> prepositionThenNone l.
Proof.
  unfold prepositionThenNone. induction l as [|x l IH]; cbn [raisesAfter].
  - split; [discriminate|]. intros (l1 & c & l2 & d & l3 & H & _).
    destruct l1; discriminate.
  - destruct (adpositionOf x) as [a|] eqn:Ex.
    + rewrite raisesAfter_seen. split.
      * intros (l2 & d & l3 & -> & Hd). exists [], x, l2, d, l3.
        repeat split; [congruence|exact Hd].
      * intros (l1 & c & l2 & d & l3 & H & Hc & Hd).
        destruct l1 as [|y l1]; simpl in H; injection H as -> ->.
        -- now exists l2, d, l3.
        -- exists (l1 ++ c :: l2), d, l3. split; [|exact Hd].
           now rewrite <- app_assoc.
    + rewrite IH. split.
      * intros (l1 & c & l2 & d & l3 & -> & Hc & Hd).
        now exists (x :: l1), c, l2, d, l3.
      * intros (l1 & c & l2 & d & l3 & H & Hc & Hd).
        destruct l1 as [|y l1]; simpl in H; injection H as -> ->.
        -- congruence.
        -- now exists l1, c, l2, d, l3.
Qed.

Section PersonRaises.
Context {misc : MiscLib}.

(** X19. [findProperName] raises (the TypeError of [adp.length]) exactly
    when a proper-name candidate without a leading preposition comes, in
    scan order, after a candidate with one; the text of the sentence, the
    case of the names and the event noun play no part in it. *)
Theorem findProperName_raises_iff (text : string) (properNames : list Detail.t)
    (selectedEventNoun : Span.t) :
  (exists m, findProperName text properNames selectedEventNoun = Throw m) <->
  prepositionThenNone properNames.
Proof.
  rewrite <- raisesAfter_unseen.
  rewrite <- (forEachExn_raises text selectedEventNoun properNames
                (mkNameScan (ProperName.mk "" (-1) "" "") 1000 false None)).
  unfold findProperName.
  destruct (forEachExn _ _ _) as [st|m].
  - split; intros [m H]; [|discriminate].
    destruct (ProperName.index (selectedProperName st) =? -1); discriminate.
  - split; intros _; now exists m.
Qed.
End PersonRaises.

Section PersonInvariant.
Context {misc : MiscLib}.
Variable text : string.
Variable selectedEventNoun : Span.t.
Variable properNames : list Detail.t.

(** The callback keeps the scan in the shape [scanned]. *)
Lemma findProperName_body_scanned (st st' : NameScan) (d : Detail.t) :
  In d properNames ->
  scanned text selectedEventNoun properNames st ->
  findProperName_body text selectedEventNoun st d = Ok st' ->
  scanned text selectedEventNoun properNames st'.
Proof.
  intros Hin Hst. unfold findProperName_body. cbv zeta. fold (adpositionOf d).
  assert (Hle : properNameDistance st <= 1000).
  { destruct Hst as [[_ ->]|(c & _ & _ & _ & -> & Hc)]; lia. }
  assert (Hkeep : scanned text selectedEventNoun properNames
                    (mkNameScan (selectedProperName st) (properNameDistance st)
                       (match adpositionOf d with Some _ => true | None => hasAdp st end)
                       (adpositionOf d))).
  { destruct Hst as [Hi|Hc]; [left|right]; exact Hi || exact Hc. }
  assert (Hpv : ProperName.parsedValue (selectedProperName st) = "").
  { destruct Hst as [[-> _]|(c & _ & _ & -> & _)]; reflexivity. }
  destruct (adpositionOf d) as [a|] eqn:Ea; [|destruct (hasAdp st) eqn:Eh; [discriminate|]].
  - destruct (isLowerCase _) eqn:El; [intros H; injection H as <-; exact Hkeep|].
    destruct (Z.ltb_spec (Z.abs (indexOf (toLowerCase text) (Detail.value d) -
                                 Span.index selectedEventNoun))
                         (properNameDistance st)) as [Hlt|Hge];
      intros H; injection H as <-; [|exact Hkeep].
    right. exists d. split; [exact Hin|]. unfold survives, firstLetter, nameOf, nameOffset.
    rewrite Ea, El, Hpv. repeat split. unfold nameDistance, nameOffset. lia.
  - destruct (isLowerCase _) eqn:El; [intros H; injection H as <-; exact Hkeep|].
    destruct (Z.ltb_spec (Z.abs (indexOf (toLowerCase text) (Detail.value d) -
                                 Span.index selectedEventNoun))
                         (properNameDistance st)) as [Hlt|Hge];
      intros H; injection H as <-; [|exact Hkeep].
    right. exists d. split; [exact Hin|]. unfold survives, firstLetter, nameOf, nameOffset.
    rewrite Ea, El, Hpv. repeat split. unfold nameDistance, nameOffset. lia.
Qed.

Lemma forEachExn_scanned (l : list Detail.t) :
  forall st st',
    (forall d, In d l -> In d properNames) ->
    scanned text selectedEventNoun properNames st ->
    forEachExn l (findProperName_body text selectedEventNoun) st = Ok st' ->
    scanned text selectedEventNoun properNames st'.
Proof.
  induction l as [|d l IH]; intros st st' Hincl Hst; cbn [forEachExn].
  - intros H. now injection H as <-.
  - destruct (findProperName_body text selectedEventNoun st d) as [st1|m] eqn:E;
      [|discriminate].
    apply IH.
    + intros x Hx. apply Hincl. now right.
    + eapply findProperName_body_scanned; [|exact Hst|exact E]. apply Hincl. now left.
Qed.
End PersonInvariant.

Section PersonResolved.
Context {misc : MiscLib}.

(** X20. Whatever the candidates are, a person that [findProperName]
    returns is one of them: it passed the case filter, its index is the
    offset of the candidate in the lower-cased sentence (never -1) and
    lies strictly less than 1000 characters from the event noun, its value
    is the name without the preposition, and its rendered value ends with
    a space and the capitalized name. *)
Theorem findProperName_resolved (text : string) (properNames : list Detail.t)
    (selectedEventNoun : Span.t) (person : ProperName.t) :
  findProperName text properNames selectedEventNoun = Ok (Some person) ->
  exists c,
    In c properNames /\ survives text c = true /\
    ProperName.value person = nameOf c /\
    ProperName.index person = nameOffset text c /\
    ProperName.type person = Detail.type c /\
    ProperName.index person <> -1 /\
    Z.abs (ProperName.index person - Span.index selectedEventNoun) < 1000 /\
    exists w, ProperName.parsedValue person = w +++ " " +++ capitalize (nameOf c).
Proof.
  unfold findProperName.
  destruct (forEachExn _ _ _) as [st|m] eqn:E; [|discriminate].
  eapply (@forEachExn_scanned _ text selectedEventNoun properNames properNames) in E;
    [|auto|left; split; reflexivity].
  destruct (Z.eqb_spec (ProperName.index (selectedProperName st)) (-1)) as [|Hi];
    [discriminate|].
  intros H. injection H as <-.
  destruct E as [[E _]|(c & Hin & Hs & E & _ & Hd)].
  - rewrite E in Hi. now elim Hi.
  - rewrite E in *. cbn [ProperName.value ProperName.index ProperName.type
                         ProperName.parsedValue] in *.
    exists c. repeat split; auto.
    destruct (hasAdp st); cbn [negb]; [now exists (show (adp st))|now exists "with"].
Qed.
End PersonResolved.

(* ================================================================== *)
(** * Further properties: offsets, the phrase for the parser, the title *)
(* ================================================================== *)

(** [text.indexOf(pat)] is the offset of the first occurrence. *)
Lemma indexOf_firstOccurrence (text pat : string) :
  firstOccurrence text pat (indexOf text pat).
Proof.
  unfold firstOccurrence, indexOf, occursAt.
  destruct (String.index 0 pat text) as [n|] eqn:E.
  - right. exists n. split; [reflexivity|]. split.
    + now apply index_correct1 with (n := O).
    + intros p Hp. apply (index_correct2 _ _ _ _ E); lia.
  - left. split; [reflexivity|]. intros p.
    destruct pat as [|c pat].
    + apply index_correct4 in E. lia.
    + apply (index_correct3 O p _ _ E); [discriminate|lia].
Qed.

Lemma indexOf_empty (text : string) : indexOf text "" = 0.
Proof.
  unfold indexOf. destruct text; reflexivity.
Qed.

(** X21. [findEventNoun] returns its initial empty span (value "", index
    -1) exactly when every candidate lies 1000 characters or more from the
    anchor, in particular when there is no candidate; that is when
    [process] turns to the intentional verbs. *)
Theorem findEventNoun_nothing_iff (text : string) (eventNouns : list Detail.t)
    (anchor : Z) :
  findEventNoun text eventNouns anchor = Span.mk "" (-1) "" <->
  forall c, In c eventNouns -> 1000 <= distanceTo text anchor c.
Proof.
  destruct (findEventNoun_spec text eventNouns anchor)
    as [[Heq Hall]|(c & Hc & Hd & Heq)].
  - split; [intros _; exact Hall|intros _; exact Heq].
  - split.
    + rewrite Heq. unfold spanOf, offsetIn. intros H. injection H as Hv Hi _.
      rewrite Hv, indexOf_empty in Hi. discriminate.
    + intros Hall. apply firstNearest_In in Hc. specialize (Hall _ Hc). lia.
Qed.

(** X22. Every date span that [getSelectionArray] pushes is in the
    returned array, with the type and the text of the fragment, and its
    index is the offset of the first occurrence of that text in the
    sentence ([-1] when the text does not occur): a fragment whose text
    occurs earlier in the sentence is highlighted at the earlier place. *)
Theorem getSelectionArray_date_spans (text : string) (dates : list Detail.t)
    (selectedEventNoun : Span.t)
    (backwardsAdjAttributes forwardAdjAttributes : option (list Span.t))
    (selectedProperName : option ProperName.t) (date : Detail.t) :
  In date dates ->
  exists a,
    In a (getSelectionArray text dates selectedEventNoun backwardsAdjAttributes
                            forwardAdjAttributes selectedProperName) /\
    Span.value a = Detail.value date /\
    Span.type a = Detail.type date /\
    firstOccurrence text (Detail.value date) (Span.index a).
Proof.
  intros Hin. exists (spanOf text date). split; [|repeat split].
  - rewrite getSelectionArray_gathered.
    apply (Permutation_in _ (Permutation_sym (sortByIndex_perm _))).
    unfold gathered. apply in_or_app. left. now apply in_map.
  - apply indexOf_firstOccurrence.
Qed.

Lemma replaceCommas_app (a b : string) :
  replaceCommas (a +++ b) = replaceCommas a +++ replaceCommas b.
Proof.
  induction a as [|c a IH]; [reflexivity|]. simpl. now rewrite IH.
Qed.

Lemma hasComma_app (a b : string) : hasComma (a +++ b) = hasComma a || hasComma b.
Proof.
  induction a as [|c a IH]; [reflexivity|]. simpl. now rewrite IH, orb_assoc.
Qed.

Lemma hasComma_replaceCommas (s : string) : hasComma (replaceCommas s) = false.
Proof.
  induction s as [|c s IH]; [reflexivity|]. simpl. rewrite IH, orb_false_r.
  destruct (Ascii.eqb_spec c ","); [reflexivity|].
  now apply Ascii.eqb_neq.
Qed.

(** X23. The phrase handed to the date parser is the texts of the
    fragments, in their order, separated by single spaces, every comma
    inside a fragment replaced by a space as well: the phrase holds no
    comma. *)
Theorem timeRelatedString_phrase (dates : list Detail.t) :
  timeRelatedString dates =
    joinSpaces (map (fun d => replaceCommas (Detail.value d)) dates) /\
  hasComma (timeRelatedString dates) = false.
Proof.
  unfold timeRelatedString. split; [|apply hasComma_replaceCommas].
  induction dates as [|d dates IH]; [reflexivity|].
  destruct dates as [|d' dates]; [reflexivity|].
  cbn [map arrayToString joinSpaces] in *.
  rewrite !replaceCommas_app, IH. reflexivity.
Qed.

Lemma append_assoc (a b c : string) : (a +++ b) +++ c = a +++ b +++ c.
Proof.
  induction a as [|x a IH]; [reflexivity|]. simpl. now rewrite IH.
Qed.

(** The [forEach] of [getEventTitle] appends each word and a space. *)
Lemma title_words (l : list Span.t) :
  forall eventTitle,
    forEach l (fun t a => t +++ Span.value a +++ " ") eventTitle =
    eventTitle +++ spaced l.
Proof.
  unfold forEach. induction l as [|a l IH]; intros eventTitle; simpl.
  - now rewrite append_empty_r.
  - rewrite IH, !append_assoc. reflexivity.
Qed.

(** X24. The title is the backward attributes in sentence order (the
    reverse of the order they were collected in), each followed by a
    space, then the event noun, then, when there are forward attributes, a
    space and each of them followed by a space, then, when there is a
    person, a space and its rendered value; so a title with forward
    attributes ends with a space, or has two spaces before the person. *)
Theorem getEventTitle_words
    (backwardsAdjAttributes forwardAdjAttributes : option (list Span.t))
    (selectedEventNoun : Span.t) (selectedProperName : option ProperName.t) :
  getEventTitle backwardsAdjAttributes forwardAdjAttributes selectedEventNoun
                selectedProperName =
  spaced (rev (orEmpty backwardsAdjAttributes)) +++
  Span.value selectedEventNoun +++
  match forwardAdjAttributes with
  | Some f => " " +++ spaced f
  | None => ""
  end +++
  match selectedProperName with
  | Some p => " " +++ ProperName.parsedValue p
  | None => ""
  end.
Proof.
  unfold getEventTitle.
  destruct backwardsAdjAttributes as [b|], forwardAdjAttributes as [f|],
    selectedProperName as [p|];
    cbn [orEmpty rev spaced fold_right];
    rewrite ?title_words, ?append_assoc, ?append_empty_r; reflexivity.
Qed.

(* ================================================================== *)
(** * Further properties: the single-tagger variant *)
(* ================================================================== *)

Lemma fold_left_filter {A S : Type} (p : A -> bool) (f : S -> A -> S) (l : list A) :
  forall s, fold_left (fun st x => if p x then f st x else st) l s =
            fold_left f (filter p l) s.
Proof.
  induction l as [|x l IH]; intros s; simpl; [reflexivity|].
  destruct (p x); simpl; apply IH.
Qed.

Section LegacyNames.
Context {misc : MiscLib}.

Lemma legacy_findProperName_body_scan (text : string) (i : Z) (st : Span.t * Z)
    (d : Detail.t) :
  Legacy.findProperName_body text i st d =
  if survives text d
  then scan_body (fun c => Z.abs (nameOffset text c - i))
                 (fun _ c => Span.mk (Detail.value c) (nameOffset text c) (Detail.type c))
                 st d
  else st.
Proof.
  destruct st as [sel dist].
  unfold Legacy.findProperName_body, survives, firstLetter, scan_body, nameOffset.
  cbv zeta. fold (adpositionOf d). cbn [fst snd].
  destruct (adpositionOf d); destruct (isLowerCase _); reflexivity.
Qed.

(** X25. In the single-tagger variant [findProperName] cannot raise and
    treats every candidate by its own preposition, whatever the other
    candidates are: it rejects a candidate whose first letter (after its
    preposition) is lower-case and, among the others, returns the one
    nearest to the event noun if it lies strictly less than 1000
    characters from it, the first-encountered on a tie, with the whole
    text of the candidate as value; [null] when there is none, or when
    the text of the chosen one does not occur in the sentence. *)
Theorem legacy_findProperName_nearest (text : string) (properNames : list Detail.t)
    (eventNounIndex : Z) :
  let survivors := filter (survives text) properNames in
  let dist := fun c => Z.abs (nameOffset text c - eventNounIndex) in
  ((forall c, In c survivors -> 1000 <= dist c) ->
   Legacy.findProperName text properNames eventNounIndex = None) /\
  ((exists c, In c survivors /\ dist c < 1000) ->
   exists c,
     firstNearest dist survivors c /\
     Legacy.findProperName text properNames eventNounIndex =
       if nameOffset text c =? -1 then None
       else Some (Span.mk (Detail.value c) (nameOffset text c) (Detail.type c))).
Proof.
  intros survivors dist. subst dist. unfold Legacy.findProperName, forEach. cbv zeta.
  rewrite (fold_left_ext _ _ _ (legacy_findProperName_body_scan text eventNounIndex)).
  rewrite fold_left_filter. fold survivors.
  destruct (scan_spec (fun c => Z.abs (nameOffset text c - eventNounIndex))
              (fun (_ : Span.t) c =>
                 Span.mk (Detail.value c) (nameOffset text c) (Detail.type c))
              (fun s : Span.t => s)
              (fun c => Span.mk (Detail.value c) (nameOffset text c) (Detail.type c))
              (fun _ _ => eq_refl) survivors (Span.mk "" (-1) "") 1000)
    as [[Heq Hfar]|(c & Hc & Hd & Hp & _)].
  - rewrite Heq. cbn. split; [reflexivity|].
    intros (c & Hin & Hlt). specialize (Hfar _ Hin). lia.
  - cbv beta in Hp. rewrite Hp. cbn [Span.index]. split.
    + intros Hfar. apply firstNearest_In in Hc. specialize (Hfar _ Hc). lia.
    + intros _. exists c. split; [exact Hc|reflexivity].
Qed.
End LegacyNames.

Lemma dropTrailing_head (a : Span.t) (r : list Span.t) :
  isAdpOrPron (Span.type a) = false -> exists r', dropTrailing (a :: r) = a :: r'.
Proof.
  intros H. cbn [dropTrailing]. destruct (dropTrailing r) as [|b r'].
  - rewrite H. now exists [].
  - now exists (b :: r').
Qed.

(** X26. The two variants agree on the word before the event noun: when
    the single-tagger variant finds an adjacent common noun, its index is
    the offset of the event noun minus the length of the word plus one,
    and the backward walk of the two-tagger variant either gives up (a
    collected word is the name of the person or sits on the date anchor)
    or returns attributes that start with that word at that index. *)
Theorem legacy_commonNoun_first_backward (tokens : Tokens.t) (eventNoun : Span.t)
    (eventNounIndex : Z) (selectedProperName : option ProperName.t)
    (selectedDateIndex : Z) (commonNoun : Span.t) :
  Legacy.findAdjacentCommonNoun tokens (Tokens.out_pos tokens) eventNoun eventNounIndex =
    Ok (Some commonNoun) ->
  Span.index commonNoun = eventNounIndex - (strlen (Span.value commonNoun) + 1) /\
  Span.type commonNoun = "commonNoun" /\
  (findAdjAttributes tokens (Tokens.out_pos tokens) eventNoun selectedProperName
                     eventNounIndex selectedDateIndex true = Ok None \/
   exists rest,
     findAdjAttributes tokens (Tokens.out_pos tokens) eventNoun selectedProperName
                       eventNounIndex selectedDateIndex true =
     Ok (Some (Span.mk (Span.value commonNoun) (Span.index commonNoun) "NOUN" :: rest))).
Proof.
  unfold Legacy.findAdjacentCommonNoun, findAdjAttributes. cbv zeta.
  set (idx := arrayIndexOf (Tokens.out tokens) (Span.value eventNoun)).
  destruct (Z.leb_spec idx 0) as [|Hpos]; [discriminate|].
  pose proof (arrayIndexOf_range _ _ Hpos) as Hk. fold idx in Hk.
  unfold Tokens.out in Hk. rewrite length_map in Hk.
  set (k := Z.to_nat idx) in *.
  assert (Hidx : idx = Z.of_nat k) by (subst k; lia).
  pose proof (adjacent_lookup tokens true O Hk) as Hfirst.
  cbn [Z.of_nat Z.opp] in Hfirst. rewrite Z.add_0_r, <- Hidx in Hfirst.
  replace (idx + -1) with (idx - 1) in Hfirst by lia.
  unfold Tokens.out, Tokens.out_pos at 1. rewrite !nthZ_map, Hfirst.
  destruct (adjacentTokens tokens k true) as [|t ahead] eqn:Eadj;
    [discriminate|].
  cbn [nth_error option_map Legacy.notNoun].
  destruct (String.eqb_spec (Token.pos t) "NOUN") as [Ht|]; [|discriminate].
  cbn [negb]. intros H. injection H as <-.
  cbn [Span.index Span.value Span.type]. split; [reflexivity|]. split; [reflexivity|].
  rewrite Hidx.
  rewrite (@adjWalk_walkList tokens selectedProperName (Z.of_nat k) eventNounIndex
             selectedDateIndex true _ (adjacentTokens tokens k true)).
  - rewrite walkList_collected, Eadj. cbv zeta. cbn [takeWhile].
    assert (Hw : hasWalkTag t = true) by (unfold hasWalkTag; now rewrite Ht).
    rewrite Hw. cbn [computedSpans app]. rewrite Ht.
    destruct (discards _ _ _); [now left|]. right.
    rewrite stripTrailing_dropTrailing.
    match goal with
    | |- context [dropTrailing (?a :: ?r)] =>
        destruct (dropTrailing_head a r eq_refl) as (r' & ->)
    end.
    exists r'. reflexivity.
  - intros j. exact (adjacent_lookup tokens true j Hk).
  - unfold Tokens.out_pos. rewrite length_map. now apply adjacent_length.
Qed.

(* ------------------------------------------------------------------ *)
(** ** The intentional verb of the single-tagger variant *)
(* ------------------------------------------------------------------ *)

Lemma split_not_nil (s : string) : split s <> [].
Proof.
  destruct s as [|c s']; cbn [split]; [discriminate|].
  destruct (Ascii.eqb c " "); [discriminate|].
  destruct (split s'); discriminate.
Qed.

Lemma split_words (s : string) : Forall (fun w => hasSpace w = false) (split s).
Proof.
  induction s as [|c s' IH]; cbn [split].
  - constructor; [reflexivity|constructor].
  - destruct (Ascii.eqb c " ") eqn:Ec.
    + constructor; [reflexivity|exact IH].
    + destruct (split s') as [|w ws].
      * constructor; [|constructor]. cbn [hasSpace]. now rewrite Ec.
      * constructor; [|exact (Forall_inv_tail IH)].
        cbn [hasSpace]. rewrite Ec. exact (Forall_inv IH).
Qed.

Lemma joinSpaces_split (s : string) : joinSpaces (split s) = s.
Proof.
  induction s as [|c s' IH]; cbn [split]; [reflexivity|].
  destruct (Ascii.eqb_spec c " ") as [->|_].
  - pose proof (split_not_nil s') as Hne.
    destruct (split s') as [|w ws]; [congruence|].
    cbn [joinSpaces]. cbn [joinSpaces] in IH. now rewrite IH.
  - pose proof (split_not_nil s') as Hne.
    destruct (split s') as [|w ws]; [congruence|].
    rewrite <- IH. destruct ws as [|w' ws]; reflexivity.
Qed.

Lemma last_In (l : list string) (w : string) : JS.last l = Some w -> In w l.
Proof.
  unfold JS.last. induction l as [|x l IH]; cbn [map List.last]; [discriminate|].
  destruct l as [|y l].
  - cbn [map]. intros H. injection H as ->. now left.
  - intros H. right. exact (IH H).
Qed.

Lemma joinSpaces_last (l : list string) (w : string) :
  JS.last l = Some w ->
  exists before, joinSpaces l = before +++ w /\
                 (before = "" \/ exists b, before = b +++ " ").
Proof.
  unfold JS.last. induction l as [|x l IH]; cbn [map List.last]; [discriminate|].
  destruct l as [|y l].
  - cbn [map]. intros H. injection H as ->. exists "". split; [reflexivity|now left].
  - intros H. destruct (IH H) as (before & Hj & Hb).
    exists (x +++ " " +++ before). split.
    + change (joinSpaces (x :: y :: l)) with (x +++ " " +++ joinSpaces (y :: l)).
      rewrite Hj. now rewrite !append_assoc.
    + right. destruct Hb as [->|(b & ->)].
      * exists x. now rewrite append_empty_r.
      * exists (x +++ " " +++ b). now rewrite !append_assoc.
Qed.

Lemma split_last (s : string) : exists w, JS.last (split s) = Some w /\ afterLastSpace s w.
Proof.
  pose proof (split_not_nil s) as Hne.
  assert (exists w, JS.last (split s) = Some w) as (w & Hw).
  { unfold JS.last. induction (split s) as [|x l IH]; [congruence|].
    destruct l as [|y l]; [now exists x|]. apply IH. discriminate. }
  exists w. split; [exact Hw|]. split.
  - pose proof (split_words s) as Hall. rewrite Forall_forall in Hall.
    apply Hall. now apply last_In.
  - destruct (joinSpaces_last _ Hw) as (before & Hj & Hb).
    exists before. rewrite joinSpaces_split in Hj. now split.
Qed.

(** X27. The single-tagger variant chooses the same intentional-verb match
    as the two-tagger variant (same value, offset and type), and the noun
    it derives is what follows the last space of the matched phrase: it
    has no space, and the phrase is that noun, alone or after a part
    that ends with a space.  The two-tagger variant puts the first verb of
    the sentence and a space before that same noun whenever there is an
    intentional-verb candidate. *)
Theorem legacy_findIntentionalVerb_noun (customEntities : list Detail.t)
    (tokens : Tokens.t) (text : string) (selectedDateIndex : Z) :
  let legacy := Legacy.findIntentionalVerb customEntities text selectedDateIndex in
  let current := findIntentionalVerb customEntities tokens text selectedDateIndex in
  afterLastSpace (IntentionalVerb.value legacy) (IntentionalVerb.noun legacy) /\
  IntentionalVerb.value current = IntentionalVerb.value legacy /\
  IntentionalVerb.index current = IntentionalVerb.index legacy /\
  IntentionalVerb.type current = IntentionalVerb.type legacy /\
  (intentionalVerbsOf customEntities <> [] ->
   IntentionalVerb.noun current =
   show (firstVerbOfSentence tokens) +++ " " +++ IntentionalVerb.noun legacy).
Proof.
  cbv zeta. unfold Legacy.findIntentionalVerb, findIntentionalVerb. cbv zeta.
  fold (intentionalVerbsOf customEntities).
  destruct (intentionalVerbsOf customEntities) as [|v verbs] eqn:Ev.
  - cbn. split; [|repeat (split; [reflexivity|]); congruence].
    split; [reflexivity|]. exists "". split; [reflexivity|now left].
  - cbn [List.length Nat.eqb].
    cbn [IntentionalVerb.value IntentionalVerb.index IntentionalVerb.type
         IntentionalVerb.noun].
    split; [|repeat (split; [reflexivity|]); intros _; now rewrite firstVerb_lookup].
    destruct (split_last (IntentionalVerb.value
               (fst (forEach (v :: verbs)
                       (findIntentionalVerb_body text selectedDateIndex)
                       (IntentionalVerb.mk "" (-1) "" "", 1000)))))
      as (w & -> & Hw).
    exact Hw.
Qed.

(* ================================================================== *)
(** * The further properties on concrete sentences *)
(* ================================================================== *)

(** X3, on the controller of the examples: a second [init()] pushes the
    rules once more. *)
Lemma init_again_doubles_witness :
  exists second parsedNouns parsedProperNames,
    init ready = Ok second /\
    _mainNLP ready = _customPatterns (injectPath constructor "/vault") ++ grammar parsedNouns /\
    _mainNLP second = _mainNLP ready ++ grammar parsedNouns /\
    _secondaryNLP second =
      _secondaryNLP ready ++ [mkPattern "properName" parsedProperNames].
Proof.
  apply (@init_again_doubles files (injectPath constructor "/vault") ready).
  vm_compute. reflexivity.
Defined.

(** X7, on a list with neither a date component nor a time. *)
Lemma cleanJunkDates_not_empty_witness :
  let dates := [ent "tomorrow" "exactDay"; ent "next week" "relativeDate"] in
  cleanJunkDates dates <> [] /\
  (filter isDateComponent dates = [] -> filter isTime dates = [] ->
   cleanJunkDates dates = dates).
Proof.
  apply (@cleanJunkDates_not_empty
           [ent "tomorrow" "exactDay"; ent "next week" "relativeDate"]).
  discriminate.
Defined.

(** X9, on two date components and two times with distinct texts. *)
Lemma cleanJunkDates_one_of_each_witness :
  let dates := [ent "on march" "date"; ent "at 2pm" "exactTime";
                ent "the third" "ordinalDate"; ent "from 2 to 3" "timeRange"] in
  atMostOneOfEach (cleanJunkDates dates) = true /\
  filter isDateComponent (cleanJunkDates dates) = firstn 1 (filter isDateComponent dates) /\
  filter isTime (cleanJunkDates dates) = firstn 1 (filter isTime dates).
Proof.
  apply (@cleanJunkDates_one_of_each
           [ent "on march" "date"; ent "at 2pm" "exactTime";
            ent "the third" "ordinalDate"; ent "from 2 to 3" "timeRange"]).
  repeat constructor; cbn; intuition discriminate.
Defined.

(** X10, on the running example. *)
Lemma process_selection_sorted_witness :
  let selection :=
    [Span.mk "board" 0 "NOUN"; Span.mk "meeting" 6 "eventNoun";
     Span.mk "john" 14 "properName"; Span.mk "on march" 24 "date";
     Span.mk "at 2pm" 37 "exactTime"] in
  Sorted byIndex selection /\
  exists date,
    In date (filterDates (mainCustomEntities (auxOf ready (sentenceOf boardText)))) /\
    In (spanOf (toLowerCase boardText) date) selection.
Proof.
  apply (@process_selection_sorted tagger parser controller misc ready
           (sentenceOf boardText) []
           [Span.mk "board" 0 "NOUN"; Span.mk "meeting" 6 "eventNoun";
            Span.mk "john" 14 "properName"; Span.mk "on march" 24 "date";
            Span.mk "at 2pm" 37 "exactTime"]
           (mkEvent 0 false)).
  vm_compute. reflexivity.
Defined.

(** X12, on the running example when the calendar holds an unprocessed
    event for the very sentence. *)
Lemma process_reuses_match_witness :
  let s := sentenceOf boardText in
  let w := [mkKnown boardText "board meeting with John" (mkEvent 7 false)] in
  (forall x, ~ In (CallSemanticCheck x) (calls ready s w)) /\
  createsNoEvent (calls ready s w) /\
  sentence (snd (runProcess ready s w)) = s /\
  (_ready ready = true -> world (snd (runProcess ready s w)) = w) /\
  (forall selection event,
      outcome ready s w = RResult selection event -> event = mkEvent 7 false).
Proof.
  apply (@process_reuses_match tagger parser controller misc ready
           (sentenceOf boardText)
           [mkKnown boardText "board meeting with John" (mkEvent 7 false)]
           [mkKnown boardText "board meeting with John" (mkEvent 7 false)]
           (mkEvent 7 false)); reflexivity.
Defined.

(** X13, on the running example with an empty calendar. *)
Lemma process_creates_last_witness :
  let s := sentenceOf boardText in
  let x := mkSentence boardText (Some 1400) (Some 1500) (Some "board meeting with John") in
  let w1 := snd (syntacticCheck s []) in
  let w2 := snd (semanticCheck x w1) in
  fst (syntacticCheck s []) = None /\
  fst (semanticCheck x w1) = None /\
  x = sentence (snd (runProcess ready s [])) /\
  (exists before,
      calls ready s [] = before ++ [CallSemanticCheck x; CallCreateNewEvent x]) /\
  (exists selection,
      outcome ready s [] = RResult selection (fst (createNewEvent x w2))).
Proof.
  apply (@process_creates_last tagger parser controller misc ready
           (sentenceOf boardText) []
           (mkSentence boardText (Some 1400) (Some 1500) (Some "board meeting with John"))).
  vm_compute. do 5 right. left. reflexivity.
Defined.

(** X14, on the running example when the calendar holds an unprocessed
    event with the same title. *)
Lemma process_result_unprocessed_witness :
  let s := sentenceOf boardText in
  let w := [mkKnown "Meeting of the board" "board meeting with John" (mkEvent 7 false)] in
  processed (mkEvent 7 false) = false /\
  (fst (syntacticCheck s w) = Some (mkEvent 7 false) \/
   fst (syntacticCheck s w) = None /\
   fst (semanticCheck (sentence (snd (runProcess ready s w)))
                      (snd (syntacticCheck s w))) = Some (mkEvent 7 false)).
Proof.
  apply (@process_result_unprocessed tagger parser controller misc ready
           (sentenceOf boardText)
           [mkKnown "Meeting of the board" "board meeting with John" (mkEvent 7 false)]
           [Span.mk "board" 0 "NOUN"; Span.mk "meeting" 6 "eventNoun";
            Span.mk "john" 14 "properName"; Span.mk "on march" 24 "date";
            Span.mk "at 2pm" 37 "exactTime"]
           (mkEvent 7 false)).
  - vm_compute. reflexivity.
  - intros x. vm_compute. intuition discriminate.
Defined.

(** X17, on the two words before the event noun of "On Friday annual
    board meeting". *)
Lemma findAdjAttributes_attributes_witness :
  let attributes := [Span.mk "board" 17 "NOUN"; Span.mk "annual" 33 "ADJ"] in
  Forall (isWalkToken (Tokens.out (tokens annualMain)) None 0) attributes /\
  exists front a,
    attributes = front ++ [a] /\
    String.eqb (Span.type a) "NOUN" || String.eqb (Span.type a) "ADJ" = true.
Proof.
  apply (@findAdjAttributes_attributes (tokens annualMain)
           (Tokens.out_pos (tokens annualMain)) (Span.mk "meeting" 23 "eventNoun")
           None 23 0 true [Span.mk "board" 17 "NOUN"; Span.mk "annual" 33 "ADJ"]).
  vm_compute. reflexivity.
Defined.


(** X20, on the person of the running example. *)
Lemma findProperName_resolved_witness :
  let properNames := [ent "with john" "properName"] in
  let person := ProperName.mk "john" 14 "properName" "with John" in
  exists c,
    In c properNames /\ survives boardText c = true /\
    ProperName.value person = nameOf c /\
    ProperName.index person = nameOffset boardText c /\
    ProperName.type person = Detail.type c /\
    ProperName.index person <> -1 /\
    Z.abs (ProperName.index person - Span.index (Span.mk "meeting" 6 "eventNoun")) < 1000 /\
    exists w, ProperName.parsedValue person = w +++ " " +++ capitalize (nameOf c).
Proof.
  apply (@findProperName_resolved misc boardText [ent "with john" "properName"]
           (Span.mk "meeting" 6 "eventNoun")
           (ProperName.mk "john" 14 "properName" "with John")).
  vm_compute. reflexivity.
Defined.

(** X22, on the time of the running example. *)
Lemma getSelectionArray_date_spans_witness :
  let text := toLowerCase boardText in
  let dates := [ent "on march" "date"; ent "at 2pm" "exactTime"] in
  exists a,
    In a (getSelectionArray text dates (Span.mk "meeting" 6 "eventNoun")
                            (Some [Span.mk "board" 0 "NOUN"]) None None) /\
    Span.value a = "at 2pm" /\
    Span.type a = "exactTime" /\
    firstOccurrence text "at 2pm" (Span.index a).
Proof.
  apply (@getSelectionArray_date_spans (toLowerCase boardText)
           [ent "on march" "date"; ent "at 2pm" "exactTime"]
           (Span.mk "meeting" 6 "eventNoun") (Some [Span.mk "board" 0 "NOUN"]) None None
           (ent "at 2pm" "exactTime")).
  right. left. reflexivity.
Defined.

(** X26, on the running example: "board" before "meeting". *)
Lemma legacy_commonNoun_first_backward_witness :
  let tokens := tokens boardMain in
  let eventNoun := Span.mk "meeting" 6 "eventNoun" in
  let commonNoun := Span.mk "board" 0 "commonNoun" in
  Span.index commonNoun = 6 - (strlen (Span.value commonNoun) + 1) /\
  Span.type commonNoun = "commonNoun" /\
  (findAdjAttributes tokens (Tokens.out_pos tokens) eventNoun None 6 24 true = Ok None \/
   exists rest,
     findAdjAttributes tokens (Tokens.out_pos tokens) eventNoun None 6 24 true =
     Ok (Some (Span.mk (Span.value commonNoun) (Span.index commonNoun) "NOUN" :: rest))).
Proof.
  apply (@legacy_commonNoun_first_backward (tokens boardMain)
           (Span.mk "meeting" 6 "eventNoun") 6 None 24 (Span.mk "board" 0 "commonNoun")).
  vm_compute. reflexivity.
Defined.
